(** * SwimMeet mock API: a shallow embedding of [mock_api/app.py]

    The Flask handlers of [mock_api/app.py] are embedded as pure functions
    over an explicit store (the module-level lists [swimmers] and [races]).
    A handler takes the request and the store and returns the store it leaves
    behind together with either a response or the exception it raised.

    Conventions of the embedding:
    - a JSON object / Python [dict] with string keys is a [gmap string value];
    - the JSON values of the model are the type [value]: [null], booleans,
      integers and strings; Python's [==] on them is [py_eq] ([True == 1]
      holds in Python and in the model). Arrays, objects and fractional
      numbers as field values are not modelled;
    - the body of a request is a JSON object with such fields, or is absent
      ([request.is_json] false); a body that is JSON but not an object is not
      modelled;
    - a Python [float] is an IEEE-754 binary64 number, [spec_float] of the
      standard library at precision 53 and maximal exponent 1024;
    - strings are ASCII texts;
    - [list.sort] is the stable sort by [<] ([sort_keyed]), which determines
      the outcome on keys that [<] orders; once a key is NaN the outcome of
      [list.sort] depends on the runs it finds, and the order of a sorted
      list is then stated only for a list in which nothing is [<] what
      precedes it, which [list.sort] and [sort_keyed] both leave as it is;
    - file input/output ([load_data], [save_data]) is outside the model. *)

From Stdlib Require Import ZArith String Ascii List SpecFloat.
From stdpp Require Import base option list gmap strings sorting.

Local Open Scope Z_scope.

(** ** Python values and exceptions *)

Inductive value :=
  | VNone
  | VBool (b : bool)
  | VInt (z : Z)
  | VStr (s : string).

#[global] Instance value_eq_dec : EqDecision value.
Proof. solve_decision. Defined.

#[global] Instance value_inhabited : Inhabited value := populate VNone.

Abbreviation dict := (gmap string value).

Inductive exn := KeyError | TypeError | ValueError | OverflowError | AttributeError.

(** The outcome of evaluating a Python expression: a value, or an
    exception that nothing in [app.py] catches. *)
Inductive result (A : Type) :=
  | Ok (a : A)
  | Raise (e : exn).
Arguments Ok {A} a.
Arguments Raise {A} e.

#[global] Instance result_ret : MRet result := λ A a, Ok a.
#[global] Instance result_fmap : FMap result := λ A B f m,
  match m with
  | Ok a => Ok (f a)
  | Raise e => Raise e
  end.
#[global] Instance result_bind : MBind result := λ A B f m,
  match m with
  | Ok a => f a
  | Raise e => Raise e
  end.

Definition is_ok {A} (r : result A) : bool :=
  match r with Ok _ => true | Raise _ => false end.


(** [[f(x) for x in l]] where [f] may raise: the first exception wins. *)
Fixpoint mapR {A B} (f : A → result B) (l : list A) : result (list B) :=
  match l with
  | [] => Ok []
  | x :: l' => y ← f x; ys ← mapR f l'; Ok (y :: ys)
  end.

(** [[x for x in l if p(x)]] where the test may raise. *)
Fixpoint filterR {A} (p : A → result bool) (l : list A) : result (list A) :=
  match l with
  | [] => Ok []
  | x :: l' =>
      b ← p x; ys ← filterR p l'; Ok (if b : bool then x :: ys else ys)
  end.

(** [[f(x) for x in l if p(x)]]: test and image are evaluated element by
    element. *)
Fixpoint filter_mapR {A B} (p : A → result bool) (f : A → result B) (l : list A)
    : result (list B) :=
  match l with
  | [] => Ok []
  | x :: l' =>
      b ← p x;
      if b : bool then y ← f x; ys ← filter_mapR p f l'; Ok (y :: ys)
      else filter_mapR p f l'
  end.

(** [bool] is a subclass of [int]: [True] counts as [1], [False] as [0]. *)
Definition as_int (v : value) : option Z :=
  match v with
  | VBool b => Some (Z.b2z b)
  | VInt z => Some z
  | _ => None
  end.

(** The representative of the [==]-class of a value. *)
Definition norm (v : value) : value :=
  match v with
  | VBool b => VInt (Z.b2z b)
  | _ => v
  end.

(** [a == b] *)
Definition py_eq (a b : value) : bool := bool_decide (norm a = norm b).

(** [d1 == d2] on dictionaries: same keys, pairwise [==] values. *)
Definition dict_eq (a b : dict) : bool :=
  bool_decide (norm <$> a = norm <$> b).

(** [d[k]] *)
Definition getitem (d : dict) (k : string) : result value :=
  match d !! k with
  | Some v => Ok v
  | None => Raise KeyError
  end.

(** [d.get(k, dflt)] *)
Definition get (d : dict) (k : string) (dflt : value) : value :=
  default dflt (d !! k).

(** [k in d] *)
Definition contains (d : dict) (k : string) : bool := bool_decide (is_Some (d !! k)).

(** Truth value of an optional query parameter: [None] and [''] are false. *)
Definition truthy (o : option string) : bool :=
  match o with
  | Some s => negb (String.eqb s "")
  | None => false
  end.

(** ** Floats *)

Abbreviation float := spec_float.

Definition prec : Z := 53.
Definition emax : Z := 1024.

Definition float_add : float → float → float := SFadd prec emax.
Definition float_lt : float → float → bool := SFltb.
Definition float_le : float → float → bool := SFleb.
Definition float_eq : float → float → bool := SFeqb.

Definition is_nan (f : float) : bool :=
  match f with S754_nan => true | _ => false end.

(** Nearest binary64 number to an integer (ties to even). *)
Definition float_of_Z (z : Z) : float := binary_normalize prec emax z 0 false.

(** Conversion of an [int] operand in [int + float]: it raises
    [OverflowError] when the integer is beyond the range of a float. *)
Definition int_to_float (z : Z) : result float :=
  match float_of_Z z with
  | S754_infinity _ => Raise OverflowError
  | f => Ok f
  end.

(** [i + f] for an [int] [i] and a [float] [f]. *)
Definition int_add_float (i : Z) (f : float) : result float :=
  x ← int_to_float i; Ok (float_add x f).

(** The float nearest to [(-1)^sx * n * 10^k] (ties to even), the value
    [float(...)] gives to a decimal literal. *)
Definition dec_to_float (sx : bool) (n k : Z) : float :=
  match n with
  | Zpos p =>
      if 0 <=? k then binary_normalize prec emax (if sx then - (n * 10 ^ k) else n * 10 ^ k) 0 sx
      else
        let d := 10 ^ (- k) in
        let s := Z.max 0 (prec + 2 + Z.log2 d - Z.log2 n) in
        let q := (n * 2 ^ s) / d in
        let r := (n * 2 ^ s) mod d in
        binary_round_aux prec emax sx q (- s)
          (if r =? 0 then loc_Exact else loc_Inexact (Z.compare (2 * r) d))
  | _ => S754_zero sx
  end.

(** ** Parsing numbers: the builtins [int(str)] and [float(str)] *)

(** The blanks that [int] and [float] skip at both ends: tab, line feed,
    vertical tab, form feed, carriage return and space. *)
Definition is_space (c : ascii) : bool :=
  let n := N_of_ascii c in
  ((9 <=? n) && (n <=? 13) || (n =? 32))%N.

Definition digit (c : ascii) : option Z :=
  let n := N_of_ascii c in
  if ((48 <=? n) && (n <=? 57))%N then Some (Z.of_N n - 48) else None.

Definition is_digit (c : ascii) : bool :=
  match digit c with Some _ => true | None => false end.

Definition lower (c : ascii) : ascii :=
  let n := N_of_ascii c in
  if ((65 <=? n) && (n <=? 90))%N then ascii_of_N (n + 32) else c.

Fixpoint lowercase (s : string) : string :=
  match s with
  | EmptyString => EmptyString
  | String c s' => String (lower c) (lowercase s')
  end.

Fixpoint lstrip (s : string) : string :=
  match s with
  | String c s' => if is_space c then lstrip s' else s
  | EmptyString => EmptyString
  end.

Fixpoint rstrip (s : string) : string :=
  match s with
  | String c s' =>
      match rstrip s' with
      | EmptyString => if is_space c then EmptyString else String c EmptyString
      | r => String c r
      end
  | EmptyString => EmptyString
  end.

Definition strip (s : string) : string := rstrip (lstrip s).

(** Digits with single underscores between them, read after a first digit
    was seen: [digit (["_"] digit)*]. Returns the digits and the rest. *)
Fixpoint digits_go (s : string) : list Z * string :=
  match s with
  | String c s' =>
      match digit c with
      | Some d => let '(ds, r) := digits_go s' in (d :: ds, r)
      | None =>
          if Ascii.eqb c "_" then
            match s' with
            | String c' _ => if is_digit c' then digits_go s' else ([], s)
            | EmptyString => ([], s)
            end
          else ([], s)
      end
  | EmptyString => ([], EmptyString)
  end.

Definition digitpart (s : string) : option (list Z * string) :=
  match s with
  | String c _ => if is_digit c then Some (digits_go s) else None
  | EmptyString => None
  end.

Definition number_of (ds : list Z) : Z := fold_left (λ acc d, acc * 10 + d) ds 0.

(** An optional sign: [true] for ["-"]. *)
Definition sign_of (s : string) : bool * string :=
  match s with
  | String c s' =>
      if Ascii.eqb c "-" then (true, s')
      else if Ascii.eqb c "+" then (false, s')
      else (false, s)
  | EmptyString => (false, s)
  end.

(** [int(s)] in base ten. *)
Definition py_int (s : string) : result Z :=
  let '(neg, s1) := sign_of (strip s) in
  match digitpart s1 with
  | Some (ds, EmptyString) => Ok (if neg then - number_of ds else number_of ds)
  | _ => Raise ValueError
  end.

(** The exponent part of a float literal; absent means [0]. *)
Definition exponent_of (s : string) : option Z :=
  match s with
  | EmptyString => Some 0
  | String c s' =>
      if Ascii.eqb (lower c) "e" then
        let '(neg, s1) := sign_of s' in
        match digitpart s1 with
        | Some (ds, EmptyString) => Some (if neg then - number_of ds else number_of ds)
        | _ => None
        end
      else None
  end.

(** [[digitpart] "." digitpart | digitpart ["."]], then the exponent. *)
Definition floatnumber (s : string) : option (Z * Z) :=
  let '(ip, s1) := match digitpart s with
                   | Some (ds, r) => (ds, r)
                   | None => ([], s)
                   end in
  let '(fp, s2) := match s1 with
                   | String c s' =>
                       if Ascii.eqb c "." then
                         match digitpart s' with
                         | Some (ds, r) => (ds, r)
                         | None => ([], s')
                         end
                       else ([], s1)
                   | EmptyString => ([], s1)
                   end in
  match ip ++ fp with
  | [] => None
  | ds => e ← exponent_of s2; Some (number_of ds, e - Z.of_nat (length fp))
  end.

(** [float(s)] *)
Definition py_float (s : string) : result float :=
  let '(neg, s1) := sign_of (strip s) in
  let w := lowercase s1 in
  if String.eqb w "inf" || String.eqb w "infinity" then Ok (S754_infinity neg)
  else if String.eqb w "nan" then Ok S754_nan
  else
    match floatnumber s1 with
    | Some (n, k) => Ok (dec_to_float neg n k)
    | None => Raise ValueError
    end.

(** ** UTIL: [time_to_seconds] *)

(** [sep in s] for a one-character [sep]. *)
Fixpoint has_char (sep : ascii) (s : string) : bool :=
  match s with
  | String c s' => Ascii.eqb c sep || has_char sep s'
  | EmptyString => false
  end.

(** [s.split(sep)] for a one-character [sep]. *)
Fixpoint split (sep : ascii) (s : string) : list string :=
  match s with
  | String c s' =>
      if Ascii.eqb c sep then EmptyString :: split sep s'
      else
        match split sep s' with
        | h :: t => String c h :: t
        | [] => [String c EmptyString]
        end
  | EmptyString => [EmptyString]
  end.

Definition time_to_seconds (time_str : value) : result float :=
  match time_str with
  | VStr t =>
      if has_char ":" t then
        match split ":" t with
        | [m; s] =>
            mi ← py_int m;
            sf ← py_float s;
            int_add_float (mi * 60) sf
        | _ => Raise ValueError
        end
      else py_float t
  | _ => Raise TypeError
  end.

(** [time_to_seconds(r['time'])] *)
Definition seconds_of (r : dict) : result float :=
  t ← getitem r "time"; time_to_seconds t.

(** ** The store, requests and responses *)

(** The module-level lists [swimmers] and [races]. *)
Record store := {
  swimmers : list dict;
  races : list dict;
}.

Inductive method := GET | POST | PUT | DELETE.

(** What a handler reads from [request]: the method, the query string
    ([request.args]) and the JSON body ([request.json], [None] when the
    request carries no JSON). *)
Record request := {
  meth : method;
  args : gmap string string;
  json : option dict;
}.

(** What [jsonify] is applied to. *)
Inductive body :=
  | JDict (d : dict)
  | JList (l : list dict)
  | JMap (m : list (value * dict)).

Record response := {
  payload : body;
  status : Z;
}.

Definition respond (b : body) (code : Z) : response :=
  {| payload := b; status := code |}.

(** [jsonify({'error': msg}), code] *)
Definition error (msg : string) (code : Z) : response :=
  respond (JDict {[ "error" := VStr msg ]}) code.

(** The reply of the router to a method the route does not list. *)
Definition method_not_allowed : response := error "Method Not Allowed" 405.

(** ** Loops and lookups shared by the handlers *)

(** A [for] loop threading a state, whose body may raise. *)
Fixpoint foldR {A S} (f : S → A → result S) (l : list A) (s : S) : result S :=
  match l with
  | [] => Ok s
  | x :: l' => s' ← f s x; foldR f l' s'
  end.

(** [next(((i, x) for i, x in enumerate(l) if p(x)), None)] *)
Fixpoint find_first {A} (p : A → result bool) (l : list A) : result (option (nat * A)) :=
  match l with
  | [] => Ok None
  | x :: l' =>
      b ← p x;
      if b : bool then Ok (Some (O, x))
      else
        r ← find_first p l';
        Ok (match r with Some (i, y) => Some (S i, y) | None => None end)
  end.

(** [next((s for s in swimmers if s['id'] == sid), None)] *)
Definition find_swimmer (l : list dict) (sid : value) : result (option (nat * dict)) :=
  find_first (λ s, i ← getitem s "id"; Ok (py_eq i sid)) l.

(** [l.remove(x)]: drops the first element equal to [x]. *)
Fixpoint list_remove (x : dict) (l : list dict) : list dict :=
  match l with
  | [] => []
  | y :: l' => if dict_eq y x then l' else y :: list_remove x l'
  end.

(** A numeric operand, or [TypeError]. *)
Definition to_num (v : value) : result Z :=
  match as_int v with
  | Some z => Ok z
  | None => Raise TypeError
  end.

Definition max_list (l : list Z) : Z :=
  match l with
  | [] => 0
  | x :: l' => fold_left Z.max l' x
  end.

(** [max([r['id'] for r in l]) + 1 if l else 1] *)
Definition next_id (l : list dict) : result Z :=
  match l with
  | [] => Ok 1
  | _ =>
      ids ← mapR (λ r, getitem r "id") l;
      ns ← mapR to_num ids;
      Ok (max_list ns + 1)
  end.

(** [all(field in d for field in required)] *)
Definition has_all (required : list string) (d : dict) : bool :=
  forallb (contains d) required.

(** ** SWIMMERS ENDPOINTS *)

Definition swimmer_required : list string := ["name"; "age"; "gender"; "team"].

(** The [if age < 18: ... elif age <= 24: ... else: ...] chain. *)
Definition age_group (age : value) : result string :=
  a ← to_num age;
  Ok (if a <? 18 then "Youth"
      else if a <=? 24 then "18-24"
      else if a <=? 29 then "25-29"
      else if a <=? 34 then "30-34"
      else if a <=? 39 then "35-39"
      else if a <=? 44 then "40-44"
      else if a <=? 49 then "45-49"
      else if a <=? 54 then "50-54"
      else if a <=? 59 then "55-59"
      else if a <=? 64 then "60-64"
      else if a <=? 69 then "65-69"
      else "70+").

(** [s['team'].lower() == team.lower()] *)
Definition team_matches (team : string) (s : dict) : result bool :=
  t ← getitem s "team";
  match t with
  | VStr ts => Ok (String.eqb (lowercase ts) (lowercase team))
  | _ => Raise AttributeError
  end.

Definition handle_swimmers (req : request) (st : store) : store * result response :=
  match meth req with
  | GET =>
      let team := args req !! "team" in
      if truthy team then
        (st, l ← filterR (team_matches (default "" team)) (swimmers st);
             Ok (respond (JList l) 200))
      else (st, Ok (respond (JList (swimmers st)) 200))
  | POST =>
      match json req with
      | None => (st, Ok (error "Request body must be JSON" 400))
      | Some new_swimmer =>
          if negb (has_all swimmer_required new_swimmer) then
            (st, Ok (error "Missing required fields" 400))
          else
            match
              (i ← next_id (swimmers st);
               let new_swimmer := <["id" := VInt i]> new_swimmer in
               age ← getitem new_swimmer "age";
               g ← age_group age;
               Ok (<["ageGroup" := VStr g]> new_swimmer))
            with
            | Ok new_swimmer =>
                ({| swimmers := swimmers st ++ [new_swimmer]; races := races st |},
                 Ok (respond (JDict new_swimmer) 201))
            | Raise e => (st, Raise e)
            end
      end
  | _ => (st, Ok method_not_allowed)
  end.

Definition handle_swimmer (swimmer_id : Z) (req : request) (st : store)
    : store * result response :=
  match meth req with
  | POST => (st, Ok method_not_allowed)
  | m =>
      match find_swimmer (swimmers st) (VInt swimmer_id) with
      | Raise e => (st, Raise e)
      | Ok None => (st, Ok (error "Swimmer not found" 404))
      | Ok (Some (i, swimmer)) =>
          match m with
          | PUT =>
              let swimmer' := default ∅ (json req) ∪ swimmer in
              ({| swimmers := <[i := swimmer']> (swimmers st); races := races st |},
               Ok (respond (JDict swimmer') 200))
          | DELETE =>
              ({| swimmers := list_remove swimmer (swimmers st); races := races st |},
               Ok (respond (JDict {[ "message" := VStr "Swimmer deleted" ]}) 200))
          | _ => (st, Ok (respond (JDict swimmer) 200))
          end
      end
  end.

(** ** RACES ENDPOINTS *)

Definition race_required : list string := ["swimmer_id"; "event"; "time"; "meet_id"].

(** [min(l)]: the first item is kept until a later one is [<] it. *)
Definition py_min (l : list float) : result float :=
  match l with
  | [] => Raise ValueError
  | x :: l' => Ok (fold_left (λ m y, if float_lt y m then y else m) l' x)
  end.

(** [[r for r in l if r[field] == wanted]], with [wanted] evaluated for
    every element after [r[field]]. *)
Definition filter_field (field : string) (wanted : result value) (l : list dict)
    : result (list dict) :=
  filterR (λ r, v ← getitem r field; w ← wanted; Ok (py_eq v w)) l.

(** [r['swimmer_id'] == swimmer_id and r['event'] == event] *)
Definition same_swimmer_event (swimmer_id event : value) (r : dict) : result bool :=
  s ← getitem r "swimmer_id";
  if py_eq s swimmer_id then e ← getitem r "event"; Ok (py_eq e event)
  else Ok false.

(** The list [existing_times] of a submission. *)
Definition existing_times (swimmer_id event : value) (l : list dict) : result (list float) :=
  filter_mapR (same_swimmer_event swimmer_id event) seconds_of l.

(** [len(existing_times) == 0 or new_time_seconds < min(existing_times)] *)
Definition is_pb (new_time_seconds : float) (existing : list float) : result bool :=
  if (length existing =? 0)%nat then Ok true
  else m ← py_min existing; Ok (float_lt new_time_seconds m).

(** [today] stands for [datetime.now().strftime('%Y-%m-%d')]. *)
Definition handle_races (today : string) (req : request) (st : store)
    : store * result response :=
  match meth req with
  | GET =>
      let event := args req !! "event" in
      let meet_id := args req !! "meet_id" in
      let swimmer_id := args req !! "swimmer_id" in
      (st,
       filtered ← Ok (races st);
       filtered ← (if truthy event
                   then filter_field "event" (Ok (VStr (default "" event))) filtered
                   else Ok filtered);
       filtered ← (if truthy meet_id
                   then filter_field "meet_id" (VInt <$> py_int (default "" meet_id)) filtered
                   else Ok filtered);
       filtered ← (if truthy swimmer_id
                   then filter_field "swimmer_id" (VInt <$> py_int (default "" swimmer_id)) filtered
                   else Ok filtered);
       Ok (respond (JList filtered) 200))
  | POST =>
      match json req with
      | None => (st, Ok (error "Request body must be JSON" 400))
      | Some new_race =>
          if negb (has_all race_required new_race) then
            (st, Ok (error "Missing required fields" 400))
          else
            match
              (i ← next_id (races st);
               let new_race := <["id" := VInt i]> new_race in
               swimmer_id ← getitem new_race "swimmer_id";
               event ← getitem new_race "event";
               t ← getitem new_race "time";
               new_time_seconds ← time_to_seconds t;
               existing ← existing_times swimmer_id event (races st);
               pb ← is_pb new_time_seconds existing;
               let new_race := <["isPB" := VBool pb]> new_race in
               Ok (if contains new_race "date" then new_race
                   else <["date" := VStr today]> new_race))
            with
            | Ok new_race =>
                ({| swimmers := swimmers st; races := races st ++ [new_race] |},
                 Ok (respond (JDict new_race) 201))
            | Raise e => (st, Raise e)
            end
      end
  | _ => (st, Ok method_not_allowed)
  end.

(** ** RANKINGS ENDPOINT *)

(** A dictionary in insertion order whose keys are compared with [==]. *)
Fixpoint assoc_get {V} (k : value) (m : list (value * V)) : option V :=
  match m with
  | [] => None
  | (k', v) :: m' => if py_eq k' k then Some v else assoc_get k m'
  end.

(** [m[k] = v]: an existing key keeps its place (and its first spelling). *)
Fixpoint assoc_set {V} (k : value) (v : V) (m : list (value * V)) : list (value * V) :=
  match m with
  | [] => [(k, v)]
  | (k', v') :: m' =>
      if py_eq k' k then (k', v) :: m' else (k', v') :: assoc_set k v m'
  end.

(** The values of [best_times]. *)
Record best := {
  bt_time : value;
  bt_seconds : float;
  bt_meet : value;
  bt_date : value;
}.

(** One round of the loop [for race in event_races]. *)
Definition best_times_step (best_times : list (value * best)) (race : dict)
    : result (list (value * best)) :=
  sid ← getitem race "swimmer_id";
  t ← getitem race "time";
  time_seconds ← time_to_seconds t;
  let better :=
    match assoc_get sid best_times with
    | None => true
    | Some b => float_lt time_seconds (bt_seconds b)
    end in
  if better then
    Ok (assoc_set sid {| bt_time := t;
                         bt_seconds := time_seconds;
                         bt_meet := get race "meet_name" (VStr "Unknown");
                         bt_date := get race "date" (VStr "Unknown") |} best_times)
  else Ok best_times.

Definition ranking_entry (sid name team age age_grp : value) (b : best) : dict :=
  <["rank" := VInt 0]> (<["swimmer_id" := sid]> (<["name" := name]> (<["team" := team]>
  (<["age" := age]> (<["ageGroup" := age_grp]> (<["time" := bt_time b]>
  (<["meet" := bt_meet b]> (<["date" := bt_date b]> ∅)))))))).

(** The body of the loop [for sid, time_data in best_times.items()] once
    the swimmer is found: the entry to append, or [None] at a [continue]. *)
Definition ranking_of (gender age_group : option string) (sid : value)
    (time_data : best) (swimmer : dict) : result (option dict) :=
  skip ← (if truthy gender
          then g ← getitem swimmer "gender";
               Ok (negb (py_eq g (VStr (default "" gender))))
          else Ok false);
  if skip : bool then Ok None
  else if truthy age_group &&
          negb (py_eq (get swimmer "ageGroup" VNone) (VStr (default "" age_group)))
  then Ok None
  else
    name ← getitem swimmer "name";
    team ← getitem swimmer "team";
    age ← getitem swimmer "age";
    Ok (Some (ranking_entry sid name team age
                (get swimmer "ageGroup" (VStr "Unknown")) time_data)).

(** One round of the loop [for sid, time_data in best_times.items()]. *)
Definition rankings_step (swimmers : list dict) (gender age_group : option string)
    (rankings : list dict) (item : value * best) : result (list dict) :=
  found ← find_swimmer swimmers item.1;
  match found with
  | None => Ok rankings
  | Some (_, swimmer) =>
      entry ← ranking_of gender age_group item.1 item.2 swimmer;
      Ok (match entry with
          | Some e => rankings ++ [e]
          | None => rankings
          end)
  end.

(** Insertion of a keyed element behind every element whose key is [<] its
    own, in front of the others. *)
Fixpoint insert_by {A} (k : float) (x : A) (l : list (float * A)) : list (float * A) :=
  match l with
  | [] => [(k, x)]
  | (k', y) :: l' =>
      if float_lt k' k then (k', y) :: insert_by k x l'
      else (k, x) :: (k', y) :: l'
  end.

(** [list.sort(key=...)] on the elements decorated with their keys: a stable
    sort that compares keys with [<] only. On keys that [<] orders (floats
    without a NaN among them) the outcome of a stable sort is determined, and
    it is this list. A NaN is [<] nothing and nothing is [<] it; among such
    keys the outcome of [list.sort] depends on the runs it finds, and agrees
    with this list when no element is [<] the one before it (one ascending
    run, which both leave in place). *)
Definition sort_keyed {A} (l : list (float * A)) : list (float * A) :=
  foldr (λ kx acc, insert_by kx.1 kx.2 acc) [] l.

(** [l.sort(key=key)]: every key is computed before anything moves. *)
Definition sort_by {A} (key : A → result float) (l : list A) : result (list A) :=
  keys ← mapR key l;
  Ok ((sort_keyed (zip keys l)).*2).

(** [for i, ranking in enumerate(rankings): ranking['rank'] = i + 1] *)
Definition assign_ranks (rankings : list dict) : list dict :=
  imap (λ i ranking, <["rank" := VInt (Z.of_nat i + 1)]> ranking) rankings.

(** The list [rankings] just before it is sorted. *)
Definition build_rankings (event : string) (gender age_group : option string) (st : store)
    : result (list dict) :=
  event_races ← filter_field "event" (Ok (VStr event)) (races st);
  best_times ← foldR best_times_step event_races [];
  foldR (rankings_step (swimmers st) gender age_group) best_times [].

Definition get_rankings (req : request) (st : store) : store * result response :=
  let event := args req !! "event" in
  let gender := args req !! "gender" in
  let age_group := args req !! "ageGroup" in
  if negb (truthy event) then (st, Ok (error "Event parameter required" 400))
  else
    (st,
     rankings ← build_rankings (default "" event) gender age_group st;
     rankings ← sort_by seconds_of rankings;
     Ok (respond (JList (assign_ranks rankings)) 200)).

(** ** PBS ENDPOINT *)

(** [{'time': time, 'meet': race.get('meet_name', 'Unknown'),
      'date': race.get('date', 'Unknown')}] *)
Definition pb_entry (time : value) (race : dict) : dict :=
  <["time" := time]> (<["meet" := get race "meet_name" (VStr "Unknown")]>
  (<["date" := get race "date" (VStr "Unknown")]> ∅)).

(** One round of the loop [for race in swimmer_races]. *)
Definition pbs_step (pbs : list (value * dict)) (race : dict) : result (list (value * dict)) :=
  event ← getitem race "event";
  time ← getitem race "time";
  time_seconds ← time_to_seconds time;
  match assoc_get event pbs with
  | None => Ok (assoc_set event (pb_entry time race) pbs)
  | Some pb =>
      pb_time ← getitem pb "time";
      pb_seconds ← time_to_seconds pb_time;
      if float_lt time_seconds pb_seconds
      then Ok (assoc_set event (pb_entry time race) pbs)
      else Ok pbs
  end.

(** Whether [a < b] is defined for two keys: strings are ordered among
    themselves and numbers among themselves; any other pair raises
    [TypeError]. *)
Definition comparable (a b : value) : bool :=
  match a, b with
  | VStr _, VStr _ => true
  | (VInt _ | VBool _), (VInt _ | VBool _) => true
  | _, _ => false
  end.

(** The keys can be sorted: every two of them are comparable. *)
Fixpoint sortable (ks : list value) : bool :=
  match ks with
  | [] => true
  | k :: ks' => forallb (comparable k) ks' && sortable ks'
  end.

(** [jsonify(pbs)]: the encoder sorts the items of the mapping by key
    ([sort_keys]), which raises [TypeError] when two keys cannot be
    compared. Every other mapping that [app.py] hands to [jsonify] has
    string keys. The order of the items is kept as the loop left it, the
    members of a JSON object being unordered. *)
Definition jsonify_map (m : list (value * dict)) : result body :=
  if sortable m.*1 then Ok (JMap m) else Raise TypeError.

Definition get_personal_bests (swimmer_id : Z) (st : store) : store * result response :=
  (st,
   swimmer_races ← filter_field "swimmer_id" (Ok (VInt swimmer_id)) (races st);
   match swimmer_races with
   | [] => Ok (respond (JMap []) 200)
   | _ =>
       pbs ← foldR pbs_step swimmer_races [];
       b ← jsonify_map pbs;
       Ok (respond b 200)
   end).

(** ** Sample requests and stores *)

Definition get_request (a : gmap string string) : request :=
  {| meth := GET; args := a; json := None |}.
Definition post_request (d : dict) : request :=
  {| meth := POST; args := ∅; json := Some d |}.
Definition put_request (d : dict) : request :=
  {| meth := PUT; args := ∅; json := Some d |}.
Definition delete_request : request :=
  {| meth := DELETE; args := ∅; json := None |}.

Definition new_swimmer_fields (name : string) (age : Z) (gender team : string) : dict :=
  <["name" := VStr name]> (<["age" := VInt age]> (<["gender" := VStr gender]>
  (<["team" := VStr team]> ∅))).

Definition new_race_fields (swimmer_id : Z) (event time : string) (meet_id : Z) : dict :=
  <["swimmer_id" := VInt swimmer_id]> (<["event" := VStr event]>
  (<["time" := VStr time]> (<["meet_id" := VInt meet_id]> ∅))).

(** Runs handlers one after the other and collects what they answer. *)
Definition run_all (hs : list (store → store * result response)) (st : store)
    : store * list (result response) :=
  fold_left (λ acc h, let '(st', r) := h acc.1 in (st', acc.2 ++ [r])) hs (st, []).

Definition empty_store : store := {| swimmers := []; races := [] |}.

(** Two swimmers and the four races of the progression scenario of
    [tests/integration/test_meet_workflow.py]. *)
Definition sample_store : store :=
  (run_all
     [handle_swimmers (post_request (new_swimmer_fields "Alex Martinez" 26 "M" "Brooklyn Dolphins"));
      handle_swimmers (post_request (new_swimmer_fields "Emma Thompson" 24 "F" "Queens Aquatics"));
      handle_races "2024-01-01" (post_request (new_race_fields 1 "50free" "30.50" 1));
      handle_races "2024-01-01" (post_request (new_race_fields 1 "50free" "29.80" 2));
      handle_races "2024-01-01" (post_request (new_race_fields 1 "50free" "30.10" 3));
      handle_races "2024-01-01" (post_request (new_race_fields 1 "50free" "29.50" 4));
      handle_races "2024-01-01" (post_request (new_race_fields 2 "50free" "27.80" 4))]
     empty_store).1.

(** ** The age-group table of the specification *)

(** The rows of the table: inclusive bounds, [None] for an open end. *)
Definition age_table : list (option Z * option Z * string) :=
  [(None, Some 17, "Youth");
   (Some 18, Some 24, "18-24");
   (Some 25, Some 29, "25-29");
   (Some 30, Some 34, "30-34");
   (Some 35, Some 39, "35-39");
   (Some 40, Some 44, "40-44");
   (Some 45, Some 49, "45-49");
   (Some 50, Some 54, "50-54");
   (Some 55, Some 59, "55-59");
   (Some 60, Some 64, "60-64");
   (Some 65, Some 69, "65-69");
   (Some 70, None, "70+")].

Definition in_row (a : Z) (row : option Z * option Z * string) : bool :=
  match row.1.1 with Some lo => lo <=? a | None => true end
  && match row.1.2 with Some hi => a <=? hi | None => true end.

(** The bucket the table gives to an age: the row that contains it. *)
Definition classify_table (a : Z) : option string :=
  match List.find (in_row a) age_table with
  | Some row => Some row.2
  | None => None
  end.

(** ** The registry invariant and sequences of registry operations *)

(** The [id] entries of the records of the registry, in order. *)
Definition ids_of (l : list dict) : list (option value) := (λ s, s !! "id") <$> l.

(** Every record carries a positive integer [id], and no two records carry
    the same one. *)
Definition unique_ids (l : list dict) : Prop :=
  Forall (λ s, ∃ i, s !! "id" = Some (VInt i) ∧ 0 < i) l ∧ NoDup (ids_of l).

(** The number of a record: its [id] read as an integer. *)
Definition id_number (s : dict) : option Z := s !! "id" ≫= as_int.

(** A call to one of the two registry routes, [/api/swimmers] and
    [/api/swimmers/<int:swimmer_id>]. *)
Inductive registry_call :=
  | Swimmers (req : request)
  | Swimmer (swimmer_id : Z) (req : request).

Definition call (c : registry_call) (st : store) : store :=
  match c with
  | Swimmers req => (handle_swimmers req st).1
  | Swimmer swimmer_id req => (handle_swimmer swimmer_id req st).1
  end.

Definition run_calls (cs : list registry_call) (st : store) : store :=
  fold_left (λ st c, call c st) cs st.

(** The call is not an update whose fields include [id]. *)
Definition keeps_id (c : registry_call) : Prop :=
  match c with
  | Swimmer _ req => meth req = PUT → default ∅ (json req) !! "id" = None
  | Swimmers _ => True
  end.

(** A sequence of registry calls that creates, updates and deletes. *)
Definition sample_calls : list registry_call :=
  [Swimmers (post_request (new_swimmer_fields "John Smith" 28 "M" "Manhattan Marlins"));
   Swimmer 1 (put_request {[ "age" := VInt 27 ]});
   Swimmer 2 delete_request;
   Swimmers (get_request ∅)].

(** ** The order of floats *)

(** The place of a float on the line, as a triple compared
    lexicographically: the class (negative infinity, negative, zero,
    positive, positive infinity), then exponent and mantissa. *)
Definition float_key (f : float) : Z * Z * Z :=
  match f with
  | S754_infinity true => (-2, 0, 0)
  | S754_finite true m e => (-1, - e, - Z.pos m)
  | S754_zero _ => (0, 0, 0)
  | S754_finite false m e => (1, e, Z.pos m)
  | S754_infinity false => (2, 0, 0)
  | S754_nan => (3, 0, 0)
  end.

Definition lex_lt (x y : Z * Z * Z) : Prop :=
  x.1.1 < y.1.1 ∨ (x.1.1 = y.1.1 ∧ (x.1.2 < y.1.2 ∨ (x.1.2 = y.1.2 ∧ x.2 < y.2))).

Definition lex_le (x y : Z * Z * Z) : Prop := lex_lt x y ∨ x = y.

(** ** Entries of one swimmer in one event *)




(** ** Races of a swimmer, races of an event *)

(** The field is present and [==] the given value. *)
Definition field_is (field : string) (v : value) (r : dict) : bool :=
  match r !! field with
  | Some w => py_eq w v
  | None => false
  end.

(** The entries of a swimmer, in ledger order. *)
Definition races_of (swimmer_id : Z) (l : list dict) : list dict :=
  filter (field_is "swimmer_id" (VInt swimmer_id)) l.

(** The entries of an event, in ledger order. *)
Definition races_in (event : value) (l : list dict) : list dict :=
  filter (field_is "event" event) l.





(** ** EVENTS and HEALTH *)

(** [events] is loaded once and never written: it is a parameter of the two
    handlers that read it. *)
Definition get_events (events : list dict) (st : store) : store * result response :=
  (st, Ok (respond (JList events) 200)).

Definition health_check (events : list dict) (st : store) : store * result response :=
  (st,
   Ok (respond
         (JDict (<["status" := VStr "healthy"]>
                 (<["swimmers_count" := VInt (Z.of_nat (length (swimmers st)))]>
                 (<["races_count" := VInt (Z.of_nat (length (races st)))]>
                 (<["events_count" := VInt (Z.of_nat (length events))]> ∅)))))
         200)).

(** ** Calls to the API *)

(** A call to one of the routes that read or write the store. *)
Inductive api_call :=
  | CallSwimmers (req : request)
  | CallSwimmer (swimmer_id : Z) (req : request)
  | CallRaces (today : string) (req : request)
  | CallRankings (req : request)
  | CallPersonalBests (swimmer_id : Z).

Definition api_step (c : api_call) (st : store) : store * result response :=
  match c with
  | CallSwimmers req => handle_swimmers req st
  | CallSwimmer swimmer_id req => handle_swimmer swimmer_id req st
  | CallRaces today req => handle_races today req st
  | CallRankings req => get_rankings req st
  | CallPersonalBests swimmer_id => get_personal_bests swimmer_id st
  end.

Definition run_api (cs : list api_call) (st : store) : store :=
  fold_left (λ st c, (api_step c st).1) cs st.

(** The number of occurrences of a character in a string. *)
Fixpoint count_char (sep : ascii) (s : string) : nat :=
  match s with
  | String c s' => (if Ascii.eqb c sep then 1 else 0) + count_char sep s'
  | EmptyString => 0
  end.

(** A session that registers, submits, queries and deletes. *)
Definition sample_session : list api_call :=
  [CallSwimmers (post_request (new_swimmer_fields "John Smith" 28 "M" "Manhattan Marlins"));
   CallRaces "2024-02-01" (post_request (new_race_fields 3 "50free" "24.80" 3));
   CallRaces "2024-02-01" (post_request (new_race_fields 3 "50free" "1:2:3" 3));
   CallRankings (get_request {[ "event" := "50free" ]});
   CallPersonalBests 3;
   CallSwimmer 2 delete_request;
   CallRaces "2024-02-02" (post_request (new_race_fields 2 "100free" "1:01.50" 4))].

(** ** Listings *)

(** The swimmer's team is the given one, letter case aside. *)
Definition team_is (team : string) (s : dict) : bool :=
  match s !! "team" with
  | Some (VStr t) => String.eqb (lowercase t) (lowercase team)
  | _ => false
  end.

(** A filter of a listing: it holds when it is not given. *)
Definition passes (field : string) (wanted : option value) (r : dict) : bool :=
  match wanted with
  | Some v => field_is field v r
  | None => true
  end.

(** The race passes the three filters of a listing. *)
Definition race_matches (event : option string) (meet_id swimmer_id : option Z)
    (r : dict) : bool :=
  passes "event" (VStr <$> event) r
  && passes "meet_id" (VInt <$> meet_id) r
  && passes "swimmer_id" (VInt <$> swimmer_id) r.

(** A query parameter that is given and not empty. *)
Definition given (o : option string) : option string :=
  if truthy o then o else None.

(** The change of the number of swimmers that the answer of a call
    announces. *)
Definition swimmers_delta (c : api_call) (resp : response) : Z :=
  match c with
  | CallSwimmers _ => if status resp =? 201 then 1 else 0
  | CallSwimmer _ req =>
      match meth req with
      | DELETE => if status resp =? 200 then -1 else 0
      | _ => 0
      end
  | _ => 0
  end.

(** The change of the number of races that the answer of a call announces. *)
Definition races_delta (c : api_call) (resp : response) : Z :=
  match c with
  | CallRaces _ _ => if status resp =? 201 then 1 else 0
  | _ => 0
  end.

(** A field of the answer of [/api/health]. *)
Definition health_field (field : string) (events : list dict) (st : store) : option value :=
  match (health_check events st).2 with
  | Ok {| payload := JDict d |} => d !! field
  | _ => None
  end.

(** ** Times that are not numbers, minutes beyond the floats *)

(** A run of [n] zeros. *)
Fixpoint zeros (n : nat) : string :=
  match n with
  | O => EmptyString
  | S n' => String "0" (zeros n')
  end.

(** The digit one followed by four hundred zeros: an integer whose product
    with 60 is beyond the range of a float. *)
Definition long_minutes : string := String "1" (zeros 400).

(** Submissions of swimmer 1 in the 50 m freestyle with the given times, one
    after the other. *)
Definition submissions (times : list string) : list (store → store * result response) :=
  (λ time, handle_races "2024-01-01" (post_request (new_race_fields 1 "50free" time 1)))
  <$> times.

(** The ledger after the times "nan", "20" and "10". *)
Definition nan_first : store := (run_all (submissions ["nan"; "20"; "10"]) empty_store).1.

(** The ledger after the times "20", "nan" and "10". *)
Definition nan_second : store := (run_all (submissions ["20"; "nan"; "10"]) empty_store).1.

(** Four registered swimmers with one race each in the 50 m freestyle, of
    times "3", "nan", "1" and "2" in ledger order. *)
Definition nan_meet : store :=
  (run_all
     [handle_swimmers (post_request (new_swimmer_fields "Alex Martinez" 26 "M" "Brooklyn Dolphins"));
      handle_swimmers (post_request (new_swimmer_fields "Emma Thompson" 24 "F" "Queens Aquatics"));
      handle_swimmers (post_request (new_swimmer_fields "John Smith" 28 "M" "Manhattan Marlins"));
      handle_swimmers (post_request (new_swimmer_fields "Mia Chen" 31 "F" "Bronx Barracudas"));
      handle_races "2024-01-01" (post_request (new_race_fields 1 "50free" "3" 1));
      handle_races "2024-01-01" (post_request (new_race_fields 2 "50free" "nan" 1));
      handle_races "2024-01-01" (post_request (new_race_fields 3 "50free" "1" 1));
      handle_races "2024-01-01" (post_request (new_race_fields 4 "50free" "2" 1))]
     empty_store).1.

(** The parsed times 3, NaN, 1 and 2. *)
Definition nan_meet_times : list float :=
  [S754_finite false 6755399441055744 (-51); S754_nan;
   S754_finite false 4503599627370496 (-52); S754_finite false 4503599627370496 (-51)].

(** The statuses of a list of answers. *)
Definition statuses (rs : list (result response)) : list (result Z) :=
  (λ r : result response, status <$> r) <$> rs.

(** The sample store after [PUT /api/swimmers/2] with the body [{"id": 1}]:
    both records carry the id 1. *)
Definition shared_id_store : store :=
  (handle_swimmer 2 (put_request {[ "id" := VInt 1 ]}) sample_store).1.

(** * Properties *)

(** ** The [result] monad *)

Lemma bind_Ok {A B} (m : result A) (f : A → result B) b :
  m ≫= f = Ok b ↔ ∃ a, m = Ok a ∧ f a = Ok b.
Proof.
  destruct m as [a|e]; simpl.
  - split; [eauto | by intros (? & [= ->] & ?)].
  - split; [done | by intros (? & ? & ?)].
Qed.

(** Inversion of a successful computation written with [←]. *)
Ltac inv_ok :=
  repeat match goal with
  | H : Raise _ = Ok _ |- _ => discriminate H
  | H : _ ≫= _ = Ok _ |- _ =>
      let a := fresh "a" in
      let Ha := fresh "Ha" in
      apply bind_Ok in H as (a & Ha & H)
  end.

Lemma getitem_Ok (d : dict) k v : getitem d k = Ok v ↔ d !! k = Some v.
Proof. unfold getitem. destruct (d !! k); naive_solver. Qed.

Lemma contains_true (d : dict) k : contains d k = true ↔ is_Some (d !! k).
Proof. unfold contains. by rewrite bool_decide_eq_true. Qed.

Lemma has_all_false (required : list string) (d : dict) field :
  field ∈ required → d !! field = None → has_all required d = false.
Proof.
  intros Hin Hnone. unfold has_all.
  apply not_true_is_false. rewrite forallb_forall.
  intros Hall. specialize (Hall field).
  rewrite contains_true, Hnone in Hall.
  apply (is_Some_None (A := value)), Hall. by apply list_elem_of_In.
Qed.

Lemma has_all_true (required : list string) (d : dict) field :
  has_all required d = true → field ∈ required → is_Some (d !! field).
Proof.
  unfold has_all. rewrite forallb_forall. intros Hall Hin.
  apply contains_true, Hall. by apply list_elem_of_In.
Qed.

(** ** Missing parameters and fields *)

(** C6. A rankings request without the [event] parameter is answered with
    status 400 and a body [{"error": ...}], which is not an array, and the
    store is returned as it was. *)
Theorem rankings_event_required (req : request) (st : store) :
  args req !! "event" = None →
  get_rankings req st = (st, Ok (error "Event parameter required" 400))
  ∧ status (error "Event parameter required" 400) = 400
  ∧ payload (error "Event parameter required" 400)
    = JDict {[ "error" := VStr "Event parameter required" ]}.
Proof.
  intros Hev. unfold get_rankings. rewrite Hev. done.
Qed.

(** C7. A race submission that lacks one of [swimmer_id], [event], [time],
    [meet_id] is answered with status 400 and a body [{"error": ...}]; the
    store, hence the ledger, is returned as it was. *)
Theorem race_missing_field (today : string) (req : request) (st : store)
    (new_race : dict) (field : string) :
  meth req = POST →
  json req = Some new_race →
  field ∈ race_required →
  new_race !! field = None →
  handle_races today req st = (st, Ok (error "Missing required fields" 400))
  ∧ races (handle_races today req st).1 = races st
  ∧ status (error "Missing required fields" 400) = 400
  ∧ payload (error "Missing required fields" 400)
    = JDict {[ "error" := VStr "Missing required fields" ]}.
Proof.
  intros Hm Hj Hin Hnone. unfold handle_races.
  rewrite Hm, Hj, (has_all_false _ _ _ Hin Hnone). done.
Qed.

Lemma rankings_event_required_witness :
  args (get_request {[ "gender" := "M" ]}) !! "event" = None
  ∧ get_rankings (get_request {[ "gender" := "M" ]}) sample_store
    = (sample_store, Ok (error "Event parameter required" 400)).
Proof.
  split; [reflexivity|].
  apply (rankings_event_required (get_request {[ "gender" := "M" ]}) sample_store).
  reflexivity.
Defined.

Lemma race_missing_field_witness :
  let req := post_request (<["swimmer_id" := VInt 1]> (<["event" := VStr "50free"]> ∅)) in
  handle_races "2024-01-01" req sample_store
  = (sample_store, Ok (error "Missing required fields" 400)).
Proof.
  intros req.
  apply (race_missing_field "2024-01-01" req sample_store
           (<["swimmer_id" := VInt 1]> (<["event" := VStr "50free"]> ∅)) "time").
  - reflexivity.
  - reflexivity.
  - unfold race_required. set_solver.
  - reflexivity.
Defined.

(** ** Age groups *)

Ltac case_cmp :=
  match goal with
  | |- context [(?x <? ?y)] => destruct (Z.ltb_spec x y)
  | |- context [(?x <=? ?y)] => destruct (Z.leb_spec x y)
  end.

(** The chain of comparisons of the handler computes the table. *)
Lemma age_group_table (a : Z) :
  ∃ g, classify_table a = Some g ∧ age_group (VInt a) = Ok g.
Proof.
  unfold classify_table, age_group, age_table, in_row; simpl.
  repeat (case_cmp; simpl; try lia; try (eexists; split; reflexivity)).
Qed.

(** C5. For an integer age [a ≥ 0], creating a swimmer stores as [ageGroup]
    the bucket that the table of the specification gives to [a]: the table
    has exactly one answer for every such age, the creation succeeds with
    status 201, and 17, 18, 24, 25, 69, 70 fall in "Youth", "18-24", "18-24",
    "25-29", "65-69", "70+". *)
Theorem age_group_at_creation (a : Z) (req : request) (st : store)
    (new_swimmer : dict) (i : Z) :
  0 ≤ a →
  meth req = POST →
  json req = Some new_swimmer →
  has_all swimmer_required new_swimmer = true →
  new_swimmer !! "age" = Some (VInt a) →
  next_id (swimmers st) = Ok i →
  (∃ g, classify_table a = Some g
        ∧ age_group (VInt a) = Ok g
        ∧ let created := <["ageGroup" := VStr g]> (<["id" := VInt i]> new_swimmer) in
          handle_swimmers req st
          = ({| swimmers := swimmers st ++ [created]; races := races st |},
             Ok (respond (JDict created) 201))
          ∧ created !! "ageGroup" = Some (VStr g))
  ∧ age_group (VInt 17) = Ok "Youth"
  ∧ age_group (VInt 18) = Ok "18-24"
  ∧ age_group (VInt 24) = Ok "18-24"
  ∧ age_group (VInt 25) = Ok "25-29"
  ∧ age_group (VInt 69) = Ok "65-69"
  ∧ age_group (VInt 70) = Ok "70+".
Proof.
  intros _ Hm Hj Hreq Hage Hid.
  split; [|by repeat split].
  destruct (age_group_table a) as (g & Htab & Hg).
  exists g. split; [done|]. split; [done|]. simpl. split.
  - unfold handle_swimmers. rewrite Hm, Hj, Hreq, Hid. simpl.
    unfold getitem. rewrite lookup_insert_ne by done. rewrite Hage. simpl.
    unfold age_group in Hg. simpl in Hg. injection Hg as <-. done.
  - by rewrite lookup_insert_eq.
Qed.

Lemma age_group_at_creation_witness :
  let req := post_request (new_swimmer_fields "Test Swimmer" 25 "M" "Test Team") in
  ∃ g, classify_table 25 = Some g
       ∧ age_group (VInt 25) = Ok g
       ∧ let created := <["ageGroup" := VStr g]>
                          (<["id" := VInt 3]> (new_swimmer_fields "Test Swimmer" 25 "M" "Test Team")) in
         handle_swimmers req sample_store
         = ({| swimmers := swimmers sample_store ++ [created]; races := races sample_store |},
            Ok (respond (JDict created) 201))
         ∧ created !! "ageGroup" = Some (VStr g).
Proof.
  intros req.
  apply (age_group_at_creation 25 req sample_store
           (new_swimmer_fields "Test Swimmer" 25 "M" "Test Team") 3).
  - lia.
  - reflexivity.
  - reflexivity.
  - vm_compute. reflexivity.
  - reflexivity.
  - vm_compute. reflexivity.
Defined.

(** ** Time parsing *)

Lemma has_char_append sep (m s : string) :
  has_char sep (m +:+ s) = has_char sep m || has_char sep s.
Proof.
  induction m as [|c m IH]; simpl; [done|].
  rewrite IH. by rewrite orb_assoc.
Qed.

Lemma split_no_sep sep (s : string) : has_char sep s = false → split sep s = [s].
Proof.
  induction s as [|c s IH]; simpl; [done|].
  intros [Hc Hs]%orb_false_elim. rewrite Hc, (IH Hs). done.
Qed.

Lemma split_one_sep sep (m s : string) :
  has_char sep m = false → has_char sep s = false →
  split sep (m +:+ String sep s) = [m; s].
Proof.
  intros Hm Hs. induction m as [|c m IH]; simpl.
  - rewrite Ascii.eqb_refl. by rewrite split_no_sep.
  - simpl in Hm. apply orb_false_elim in Hm as [Hc Hm].
    rewrite Hc, (IH Hm). done.
Qed.

(** C3, as stated, fails. In [int(m) * 60 + float(s)] the left operand is
    an [int], which [+] converts to a float; the conversion raises
    [OverflowError] when the integer is beyond the range of the floats. With
    the digit one followed by four hundred zeros as minutes and "00" as
    seconds, both parts are valid and [time_to_seconds] raises. *)
Lemma time_to_seconds_overflow :
  has_char ":" long_minutes = false
  ∧ py_int long_minutes = Ok (10 ^ 400)
  ∧ py_float "00" = Ok (S754_zero false)
  ∧ time_to_seconds (VStr (long_minutes +:+ ":" +:+ "00")) = Raise OverflowError.
Proof. repeat split; vm_compute; reflexivity. Qed.

(** C3, amended. On a string [m:s] with exactly one colon, where [int(m)] is
    [M] and [float(s)] is [S]: when [M * 60] is within the range of the
    floats, [F] being the float nearest to it, [time_to_seconds] returns the
    float sum [F + S]; when it is beyond that range, [time_to_seconds] raises
    [OverflowError]. On a colon-free string [t] with [float(t) = T] it
    returns [T]. Fractions of a second are kept and no zero padding is
    needed: "1:01.50" is 61.5, "9.5" is 9.5 and "1:5.5" is 65.5. *)
Theorem time_to_seconds_parse (m s t : string) (M : Z) (S T : float) :
  has_char ":" m = false →
  has_char ":" s = false →
  py_int m = Ok M →
  py_float s = Ok S →
  has_char ":" t = false →
  py_float t = Ok T →
  (∀ F, int_to_float (M * 60) = Ok F →
        time_to_seconds (VStr (m +:+ ":" +:+ s)) = Ok (float_add F S))
  ∧ (is_ok (int_to_float (M * 60)) = false →
     time_to_seconds (VStr (m +:+ ":" +:+ s)) = Raise OverflowError)
  ∧ time_to_seconds (VStr t) = Ok T
  ∧ time_to_seconds (VStr "1:01.50") = Ok (S754_finite false 8655355533852672 (-47))
  ∧ time_to_seconds (VStr "9.5") = Ok (S754_finite false 5348024557502464 (-49))
  ∧ time_to_seconds (VStr "1:5.5") = Ok (S754_finite false 4609152743636992 (-46)).
Proof.
  intros Hm Hs HM HS Ht HT.
  assert (Hcall : time_to_seconds (VStr (m +:+ ":" +:+ s)) = int_add_float (M * 60) S).
  { change (m +:+ ":" +:+ s) with (m +:+ String ":" s).
    unfold time_to_seconds.
    rewrite (split_one_sep ":" m s Hm Hs), has_char_append.
    replace (has_char ":" (String ":" s)) with true by done.
    rewrite orb_true_r, HM, HS. done. }
  repeat split.
  - intros F HF. rewrite Hcall. unfold int_add_float. by rewrite HF.
  - intros Hno. rewrite Hcall. unfold int_add_float, int_to_float in *.
    by destruct (float_of_Z (M * 60)).
  - unfold time_to_seconds. by rewrite Ht.
Qed.

Lemma time_to_seconds_parse_witness :
  time_to_seconds (VStr ("2" +:+ ":" +:+ "05.25"))
  = Ok (float_add (S754_finite false 8444249301319680 (-46))
                  (S754_finite false 5910974510923776 (-50)))
  ∧ time_to_seconds (VStr "29.80") = Ok (S754_finite false 8387954305977549 (-48)).
Proof.
  pose proof (time_to_seconds_parse "2" "05.25" "29.80" 2
                (S754_finite false 5910974510923776 (-50))
                (S754_finite false 8387954305977549 (-48))) as H.
  destruct H as (H1 & _ & H2 & _); try (vm_compute; reflexivity).
  split; [apply H1; vm_compute; reflexivity | exact H2].
Defined.

(** ** Lookups in the registry *)

Lemma find_first_Some {A} (p : A → result bool) (l : list A) i x :
  find_first p l = Ok (Some (i, x)) →
  l !! i = Some x ∧ p x = Ok true
  ∧ ∀ j y, (j < i)%nat → l !! j = Some y → p y = Ok false.
Proof.
  revert i. induction l as [|y l IH]; intros i H; simpl in H; [done|].
  inv_ok. destruct a.
  - injection H as <- <-. repeat split; [done|]. intros; lia.
  - inv_ok. destruct a as [[i' x']|]; [|done].
    injection H as <- <-. destruct (IH _ Ha0) as (Hl & Hp & Hlt).
    repeat split; [done..|].
    intros [|j] z Hj Hz; simpl in Hz.
    + by injection Hz as <-.
    + apply (Hlt j); [lia|done].
Qed.

Lemma find_first_None {A} (p : A → result bool) (l : list A) :
  find_first p l = Ok None → ∀ x, x ∈ l → p x = Ok false.
Proof.
  induction l as [|y l IH]; intros H x Hx; simpl in H; [by apply elem_of_nil in Hx|].
  inv_ok. destruct a; [done|]. inv_ok.
  destruct a as [[? ?]|]; [done|].
  apply elem_of_cons in Hx as [->|Hx]; [done|]. by apply IH.
Qed.

(** ** Updating a swimmer *)

(** C8. A [PUT] on an existing swimmer replaces the record, at its place in
    the registry, by the record merged with the supplied fields: a supplied
    field takes the supplied value, every other field keeps its value, and
    [ageGroup] keeps its value even when [age] is supplied; the other
    records, and the ledger, are left as they were. *)
Theorem update_merges_fields (swimmer_id : Z) (req : request) (st : store)
    (i : nat) (swimmer : dict) :
  meth req = PUT →
  find_swimmer (swimmers st) (VInt swimmer_id) = Ok (Some (i, swimmer)) →
  let fields := default ∅ (json req) in
  ∃ updated,
    handle_swimmer swimmer_id req st
    = ({| swimmers := <[i := updated]> (swimmers st); races := races st |},
       Ok (respond (JDict updated) 200))
    ∧ swimmers st !! i = Some swimmer
    ∧ (∀ k v, fields !! k = Some v → updated !! k = Some v)
    ∧ (∀ k, fields !! k = None → updated !! k = swimmer !! k)
    ∧ (∀ a, fields !! "age" = Some a → fields !! "ageGroup" = None →
            updated !! "ageGroup" = swimmer !! "ageGroup")
    ∧ (∀ j, j ≠ i → <[i := updated]> (swimmers st) !! j = swimmers st !! j)
    ∧ length (<[i := updated]> (swimmers st)) = length (swimmers st).
Proof.
  intros Hm Hfind fields. exists (fields ∪ swimmer).
  apply find_first_Some in Hfind as Hspec. destruct Hspec as (Hi & _ & _).
  split; [|split; [done|]].
  { unfold handle_swimmer. rewrite Hm, Hfind. done. }
  assert (Hkeep : ∀ k, fields !! k = None → (fields ∪ swimmer) !! k = swimmer !! k).
  { intros k Hk. rewrite lookup_union, Hk. by destruct (swimmer !! k). }
  repeat split.
  - intros k v Hk. by apply lookup_union_Some_l.
  - done.
  - intros a _ Hg. by apply Hkeep.
  - intros j Hj. by rewrite list_lookup_insert_ne.
  - by rewrite length_insert.
Qed.

Lemma update_merges_fields_witness :
  let req := put_request {[ "age" := VInt 40 ]} in
  ∃ updated,
    handle_swimmer 1 req sample_store
    = ({| swimmers := <[0%nat := updated]> (swimmers sample_store);
          races := races sample_store |},
       Ok (respond (JDict updated) 200))
    ∧ updated !! "age" = Some (VInt 40)
    ∧ updated !! "ageGroup" = Some (VStr "25-29")
    ∧ age_group (VInt 40) = Ok "40-44".
Proof.
  intros req.
  destruct (update_merges_fields 1 req sample_store 0
              (<["ageGroup" := VStr "25-29"]> (<["id" := VInt 1]>
                 (new_swimmer_fields "Alex Martinez" 26 "M" "Brooklyn Dolphins"))))
    as (updated & Hrun & _ & Hset & _ & Hgroup & _).
  - reflexivity.
  - vm_compute. reflexivity.
  - exists updated. split; [exact Hrun|]. split; [|split].
    + apply Hset. reflexivity.
    + rewrite (Hgroup (VInt 40)); reflexivity.
    + reflexivity.
Defined.

(** ** Identifiers *)

Lemma mapR_Ok {A B} (f : A → result B) (l : list A) ys :
  mapR f l = Ok ys → Forall2 (λ x y, f x = Ok y) l ys.
Proof.
  revert ys. induction l as [|x l IH]; intros ys H; simpl in H.
  - injection H as <-. constructor.
  - inv_ok. injection H as <-. constructor; [done|]. by apply IH.
Qed.

Lemma fold_max_spec (l : list Z) (a : Z) :
  a ≤ fold_left Z.max l a
  ∧ (∀ y, y ∈ l → y ≤ fold_left Z.max l a)
  ∧ (fold_left Z.max l a = a ∨ fold_left Z.max l a ∈ l).
Proof.
  revert a. induction l as [|x l IH]; intros a; simpl.
  - split; [lia|]. split; [|by left]. intros y Hy. by apply elem_of_nil in Hy.
  - destruct (IH (Z.max a x)) as (Hge & Hall & Hin). split; [lia|]. split.
    + intros y [->|Hy]%elem_of_cons; [lia|by apply Hall].
    + destruct Hin as [Heq|Hin]; [|right; by right].
      rewrite Heq.
      destruct (Z.max_spec a x) as [[_ Hm]|[_ Hm]]; rewrite Hm.
      * right. by left.
      * by left.
Qed.

Lemma max_list_spec (x : Z) (l : list Z) :
  max_list (x :: l) ∈ x :: l ∧ ∀ y, y ∈ x :: l → y ≤ max_list (x :: l).
Proof.
  unfold max_list. destruct (fold_max_spec l x) as (Hge & Hall & Hin). simpl. split.
  - destruct Hin as [->|Hin]; [by left|by right].
  - intros y [->|Hy]%elem_of_cons; [done|by apply Hall].
Qed.

Lemma next_id_numbers (l : list dict) (n : Z) :
  next_id l = Ok n → l ≠ [] →
  ∃ ns, Forall2 (λ s k, id_number s = Some k) l ns ∧ n = max_list ns + 1.
Proof.
  intros H Hne. destruct l as [|s l]; [done|].
  unfold next_id in H. inv_ok. injection H as <-.
  exists a0. split; [|done].
  apply mapR_Ok in Ha, Ha0. clear Hne.
  revert a0 Ha0. induction Ha as [|x v l' vs Hx Hl IH]; intros ns Hns.
  - inversion Hns. constructor.
  - inversion Hns as [|? k ? ks Hk Hks]; subst. constructor; [|by apply IH].
    unfold id_number. apply getitem_Ok in Hx. rewrite Hx. simpl.
    unfold to_num in Hk. by destruct (as_int v); simplify_eq.
Qed.

(** [max(...) + 1] is one more than the largest [id], which some record
    carries. *)
Lemma next_id_is_max (l : list dict) (n : Z) :
  next_id l = Ok n → l ≠ [] →
  (∃ s, s ∈ l ∧ id_number s = Some (n - 1))
  ∧ (∀ s k, s ∈ l → id_number s = Some k → k ≤ n - 1).
Proof.
  intros H Hne. destruct (next_id_numbers l n H Hne) as (ns & Hall & ->).
  replace (max_list ns + 1 - 1) with (max_list ns) by lia.
  destruct Hall as [|s k l' ns' Hs Hall]; [done|].
  destruct (max_list_spec k ns') as (Hin & Hmax). split.
  - assert (Hex : ∀ m, m ∈ k :: ns' → ∃ s0, s0 ∈ s :: l' ∧ id_number s0 = Some m).
    { intros m [->|Hm]%elem_of_cons; [exists s; split; [by left|done]|].
      clear Hin Hmax Hne H. induction Hall as [|s1 k1 l1 ns1 Hs1 Hall IH].
      - by apply elem_of_nil in Hm.
      - apply elem_of_cons in Hm as [->|Hm].
        + exists s1. split; [right; by left|done].
        + destruct (IH Hm) as (s0 & [->|Hin0]%elem_of_cons & Hs0).
          * exists s. split; [by left|done].
          * exists s0. split; [right; by right|done]. }
    apply Hex, Hin.
  - intros s0 k0 Hs0 Hk0. apply Hmax.
    apply elem_of_cons.
    apply elem_of_cons in Hs0 as [->|Hs0]; [left; congruence|right].
    clear Hin Hmax Hne H. induction Hall as [|s1 k1 l1 ns1 Hs1 Hall IH].
    + by apply elem_of_nil in Hs0.
    + apply elem_of_cons.
      apply elem_of_cons in Hs0 as [->|Hs0]; [left; congruence|right; by apply IH].
Qed.

Lemma next_id_nil_or_max (l : list dict) (n : Z) :
  next_id l = Ok n →
  (l = [] → n = 1)
  ∧ (l ≠ [] →
     (∃ s, s ∈ l ∧ id_number s = Some (n - 1))
     ∧ (∀ s k, s ∈ l → id_number s = Some k → k ≤ n - 1)).
Proof.
  intros H. split.
  - intros ->. by injection H as <-.
  - by apply next_id_is_max.
Qed.

(** ** Uniqueness of swimmer ids *)

Lemma unique_ids_number (l : list dict) (s : dict) (k : Z) :
  unique_ids l → s ∈ l → id_number s = Some k → s !! "id" = Some (VInt k) ∧ 0 < k.
Proof.
  intros [Hall _] Hs Hk. rewrite Forall_forall in Hall.
  destruct (Hall s Hs) as (i & Hi & Hpos).
  unfold id_number in Hk. rewrite Hi in Hk. simpl in Hk. by simplify_eq.
Qed.

Lemma unique_ids_create (l : list dict) (s : dict) (n : Z) :
  unique_ids l → next_id l = Ok n → s !! "id" = Some (VInt n) →
  unique_ids (l ++ [s]).
Proof.
  intros Huniq Hn Hs. destruct (next_id_nil_or_max l n Hn) as [Hnil Hmax].
  destruct (decide (l = [])) as [->|Hne].
  - rewrite (Hnil eq_refl) in Hs. split.
    + repeat constructor. exists 1. split; [done|lia].
    + unfold ids_of. simpl. apply NoDup_singleton.
  - destruct (Hmax Hne) as ((s0 & Hs0 & Hk0) & Hle). split.
    + apply Forall_app. split; [apply Huniq|].
      repeat constructor. exists n. split; [done|].
      destruct (unique_ids_number l s0 (n - 1) Huniq Hs0 Hk0). lia.
    + unfold ids_of. rewrite fmap_app. simpl. apply NoDup_app.
      split; [apply Huniq|]. split; [|apply NoDup_singleton].
      intros v Hv Hv'. apply list_elem_of_singleton in Hv' as ->.
      apply list_elem_of_fmap in Hv as (s1 & Hid & Hs1).
      assert (id_number s1 = Some n) as Hk1 by (unfold id_number; rewrite <- Hid, Hs; reflexivity).
      specialize (Hle s1 n Hs1 Hk1). lia.
Qed.

Lemma unique_ids_update (l : list dict) (i : nat) (s fields : dict) :
  l !! i = Some s → fields !! "id" = None →
  unique_ids l → unique_ids (<[i := fields ∪ s]> l).
Proof.
  intros Hi Hf [Hall Hnd].
  assert (Hid : (fields ∪ s) !! "id" = s !! "id").
  { rewrite lookup_union, Hf. by destruct (s !! "id"). }
  split.
  - apply Forall_insert; [done|]. rewrite Hid.
    rewrite Forall_forall in Hall. apply Hall. by eapply list_elem_of_lookup_2.
  - unfold ids_of. rewrite list_fmap_insert, Hid.
    rewrite list_insert_id; [done|]. by rewrite list_lookup_fmap, Hi.
Qed.

Lemma list_remove_sublist (x : dict) (l : list dict) : list_remove x l `sublist_of` l.
Proof.
  induction l as [|y l IH]; simpl; [done|].
  destruct (dict_eq y x); [by apply sublist_cons|by apply sublist_skip].
Qed.

Lemma unique_ids_sublist (l' l : list dict) :
  l' `sublist_of` l → unique_ids l → unique_ids l'.
Proof.
  intros Hsub [Hall Hnd]. split.
  - rewrite Forall_forall in Hall |- *. intros s Hs.
    apply Hall. by eapply elem_of_sublist.
  - eapply sublist_NoDup; [done|]. unfold ids_of. by apply fmap_sublist.
Qed.

(** What [POST /api/swimmers] can do to the store. *)
Lemma handle_swimmers_inv (req : request) (st st' : store) (r : result response) :
  handle_swimmers req st = (st', r) →
  (st' = st ∧ ∀ c, r ≠ Ok (respond (JDict c) 201))
  ∨ (∃ n created, next_id (swimmers st) = Ok n
       ∧ created !! "id" = Some (VInt n)
       ∧ st' = {| swimmers := swimmers st ++ [created]; races := races st |}
       ∧ r = Ok (respond (JDict created) 201)).
Proof.
  unfold handle_swimmers. intros H.
  destruct (meth req); [| |by left; simplify_eq..].
  - left. destruct (truthy _); simplify_eq; (split; [done|]).
    + intros c. by destruct (filterR _ _).
    + done.
  - destruct (json req) as [body|]; [|by left; simplify_eq].
    destruct (negb _); [by left; simplify_eq|].
    destruct (next_id (swimmers st)) as [n|e] eqn:Hn; simpl in H; [|by left; simplify_eq].
    destruct (getitem _ "age") as [age|e]; simpl in H; [|by left; simplify_eq].
    destruct (age_group age) as [g|e]; simpl in H; [|by left; simplify_eq].
    right. exists n, (<["ageGroup" := VStr g]> (<["id" := VInt n]> body)).
    simplify_eq. repeat split.
    rewrite lookup_insert_ne by done. by rewrite lookup_insert_eq.
Qed.

(** What a call on [/api/swimmers/<id>] can do to the store. *)
Lemma handle_swimmer_inv (swimmer_id : Z) (req : request) (st : store) :
  (handle_swimmer swimmer_id req st).1 = st
  ∨ (∃ i swimmer, swimmers st !! i = Some swimmer ∧
       ((meth req = PUT
         ∧ (handle_swimmer swimmer_id req st).1
           = {| swimmers := <[i := default ∅ (json req) ∪ swimmer]> (swimmers st);
                races := races st |})
        ∨ (meth req = DELETE
           ∧ (handle_swimmer swimmer_id req st).1
             = {| swimmers := list_remove swimmer (swimmers st); races := races st |}))).
Proof.
  unfold handle_swimmer.
  destruct (find_swimmer _ _) as [[[i swimmer]|]|e] eqn:Hfind;
    [|destruct (meth req); by left..].
  apply find_first_Some in Hfind as (Hi & _).
  destruct (meth req) eqn:Hm; [by left..| |]; right; exists i, swimmer; (split; [done|]).
  - by left.
  - by right.
Qed.

Lemma call_unique_ids (c : registry_call) (st : store) :
  keeps_id c → unique_ids (swimmers st) → unique_ids (swimmers (call c st)).
Proof.
  intros Hkeep Huniq. destruct c as [req|swimmer_id req]; simpl.
  - destruct (handle_swimmers req st) as [st' r] eqn:Hcall. simpl.
    apply handle_swimmers_inv in Hcall as [[-> _]|(n & created & Hn & Hid & -> & _)]; [done|].
    simpl. by eapply unique_ids_create.
  - destruct (handle_swimmer_inv swimmer_id req st)
      as [->|(i & swimmer & Hi & [[Hm ->]|[Hm ->]])]; [done|..]; simpl.
    + apply unique_ids_update; [done| |done]. by apply Hkeep.
    + eapply unique_ids_sublist; [apply list_remove_sublist|done].
Qed.

Lemma run_calls_unique_ids (cs : list registry_call) (st : store) :
  Forall keeps_id cs → unique_ids (swimmers st) → unique_ids (swimmers (run_calls cs st)).
Proof.
  intros Hcs. revert st. induction Hcs as [|c cs Hc Hcs IH]; intros st Huniq; [done|].
  simpl. apply IH. by apply call_unique_ids.
Qed.

Lemma sample_store_unique_ids : unique_ids (swimmers sample_store).
Proof.
  split.
  - repeat constructor; eexists; (split; [vm_compute; reflexivity|lia]).
  - apply (bool_decide_unpack _). by vm_compute.
Qed.

(** C9, as stated, fails: an update whose fields include [id] overwrites the
    stored [id]. In a registry with swimmers 1 and 2, [PUT /api/swimmers/2]
    with the body [{"id": 1}] leaves two records with [id] 1. *)
Lemma update_id_breaks_unique_ids :
  unique_ids (swimmers sample_store)
  ∧ ¬ unique_ids
        (swimmers (call (Swimmer 2 (put_request {[ "id" := VInt 1 ]})) sample_store)).
Proof.
  split; [apply sample_store_unique_ids|].
  intros [_ Hnd]. apply (bool_decide_pack _) in Hnd.
  vm_compute in Hnd. exact Hnd.
Qed.

(** C9, amended. Starting from a registry whose ids are pairwise distinct
    positive integers, every sequence of registry calls (creations, lookups,
    deletions, and updates whose fields do not include [id]) leaves a
    registry whose ids are pairwise distinct positive integers; and a
    creation gives the new record the id 1 when the registry is empty, and
    otherwise one more than the largest id in the registry. *)
Theorem unique_ids_preserved (cs : list registry_call) (st : store) :
  unique_ids (swimmers st) →
  Forall keeps_id cs →
  unique_ids (swimmers (run_calls cs st))
  ∧ ∀ req st' created,
      handle_swimmers req (run_calls cs st) = (st', Ok (respond (JDict created) 201)) →
      ∃ n, created !! "id" = Some (VInt n)
           ∧ swimmers st' = swimmers (run_calls cs st) ++ [created]
           ∧ (swimmers (run_calls cs st) = [] → n = 1)
           ∧ (swimmers (run_calls cs st) ≠ [] →
              (∃ s, s ∈ swimmers (run_calls cs st) ∧ s !! "id" = Some (VInt (n - 1)))
              ∧ ∀ s k, s ∈ swimmers (run_calls cs st) →
                       s !! "id" = Some (VInt k) → k ≤ n - 1).
Proof.
  intros Huniq Hcs.
  pose proof (run_calls_unique_ids cs st Hcs Huniq) as Hrun.
  split; [done|]. intros req st' created Hcall.
  apply handle_swimmers_inv in Hcall
    as [[_ Hno]|(n & created' & Hn & Hid & -> & Heq)]; [by destruct (Hno created)|].
  assert (created' = created) as -> by (unfold respond in Heq; by simplify_eq).
  exists n. split; [done|]. split; [done|].
  destruct (next_id_nil_or_max _ n Hn) as [Hnil Hmax]. split; [done|].
  intros Hne. destruct (Hmax Hne) as ((s & Hs & Hk) & Hle). split.
  - exists s. split; [done|]. by eapply unique_ids_number.
  - intros s' k Hs' Hk'. apply (Hle s'); [done|].
    unfold id_number. by rewrite Hk'.
Qed.

Lemma unique_ids_preserved_witness :
  unique_ids (swimmers sample_store)
  ∧ Forall keeps_id sample_calls
  ∧ unique_ids (swimmers (run_calls sample_calls sample_store)).
Proof.
  assert (Hk : Forall keeps_id sample_calls).
  { repeat constructor; simpl; intros; reflexivity. }
  split; [apply sample_store_unique_ids|]. split; [exact Hk|].
  apply (unique_ids_preserved sample_calls sample_store sample_store_unique_ids Hk).
Defined.

(** ** Python equality *)

Lemma py_eq_true (a b : value) : py_eq a b = true ↔ norm a = norm b.
Proof. unfold py_eq. by rewrite bool_decide_eq_true. Qed.

Lemma py_eq_refl (a : value) : py_eq a a = true.
Proof. by apply py_eq_true. Qed.

Lemma py_eq_sym (a b : value) : py_eq a b = py_eq b a.
Proof. unfold py_eq. apply bool_decide_ext. naive_solver. Qed.


(** Equal keys are interchangeable in a comparison. *)
Lemma py_eq_congr (a b c : value) : py_eq a b = true → py_eq a c = py_eq b c.
Proof.
  intros Hab%py_eq_true. unfold py_eq. apply bool_decide_ext. by rewrite Hab.
Qed.

Lemma py_eq_VInt (x y : Z) : py_eq (VInt x) (VInt y) = true ↔ x = y.
Proof. rewrite py_eq_true. simpl. naive_solver. Qed.

Lemma dict_eq_refl (d : dict) : dict_eq d d = true.
Proof. unfold dict_eq. by apply bool_decide_eq_true. Qed.

Lemma dict_eq_lookup (a b : dict) k :
  dict_eq a b = true → norm <$> a !! k = norm <$> b !! k.
Proof.
  unfold dict_eq. rewrite bool_decide_eq_true. intros H.
  by rewrite <- !lookup_fmap, H.
Qed.

(** ** Loops *)

(** An invariant of a loop holds when the loop ends normally. *)
Lemma foldR_invariant {A S} (P : S → Prop) (f : S → A → result S) (l : list A) s0 s :
  P s0 →
  (∀ s1 x s2, x ∈ l → P s1 → f s1 x = Ok s2 → P s2) →
  foldR f l s0 = Ok s → P s.
Proof.
  revert s0. induction l as [|x l IH]; intros s0 H0 Hstep H; simpl in H.
  - by injection H as <-.
  - inv_ok. apply (IH a).
    + apply (Hstep s0 x); [by left|done..].
    + intros s1 y s2 Hy. apply Hstep. by right.
    + done.
Qed.



(** ** The sort *)

Lemma insert_by_perm {A} (k : float) (x : A) (l : list (float * A)) :
  insert_by k x l ≡ₚ (k, x) :: l.
Proof.
  induction l as [|[k' y] l IH]; simpl; [done|].
  destruct (float_lt k' k); [|done].
  rewrite IH. apply Permutation_swap.
Qed.

Lemma sort_keyed_perm {A} (l : list (float * A)) : sort_keyed l ≡ₚ l.
Proof.
  induction l as [|[k x] l IH]; simpl; [done|].
  rewrite insert_by_perm. by constructor.
Qed.

Lemma mapR_length {A B} (f : A → result B) (l : list A) ys :
  mapR f l = Ok ys → length ys = length l.
Proof. intros H%mapR_Ok. symmetry. by eapply Forall2_length. Qed.

Lemma sort_by_perm {A} (key : A → result float) (l l' : list A) :
  sort_by key l = Ok l' → l' ≡ₚ l.
Proof.
  unfold sort_by. intros H. inv_ok. injection H as <-.
  rewrite sort_keyed_perm. rewrite snd_zip; [done|].
  apply mapR_length in Ha. lia.
Qed.

Lemma assign_ranks_elem (l : list dict) (e : dict) :
  e ∈ assign_ranks l → ∃ i x, l !! i = Some x ∧ e = <["rank" := VInt (Z.of_nat i + 1)]> x.
Proof.
  unfold assign_ranks. intros (i & x & -> & Hx)%elem_of_lookup_imap. eauto.
Qed.

(** ** Where ranking entries come from *)

Lemma find_swimmer_Some (l : list dict) (k : value) i s :
  find_swimmer l k = Ok (Some (i, s)) →
  l !! i = Some s ∧ ∃ v, s !! "id" = Some v ∧ py_eq v k = true.
Proof.
  intros (Hi & Hp & _)%find_first_Some. split; [done|].
  inv_ok. apply getitem_Ok in Ha. exists a. split; [done|]. by simplify_eq.
Qed.

Lemma ranking_entry_swimmer_id sid name team age grp b :
  ranking_entry sid name team age grp b !! "swimmer_id" = Some sid.
Proof. unfold ranking_entry. by simplify_map_eq. Qed.

Lemma ranking_entry_time sid name team age grp b :
  ranking_entry sid name team age grp b !! "time" = Some (bt_time b).
Proof. unfold ranking_entry. by simplify_map_eq. Qed.

(** A round of the ranking loop leaves the list alone or appends the entry
    of a swimmer found in the registry. *)
Lemma ranking_of_Some gender age_group k b s e :
  ranking_of gender age_group k b s = Ok (Some e) →
  ∃ name team age grp, e = ranking_entry k name team age grp b.
Proof.
  unfold ranking_of. intros H. inv_ok.
  destruct a; [done|]. destruct (_ && _); [done|].
  inv_ok. eexists _, _, _, _. by simplify_eq.
Qed.

Lemma rankings_step_Ok sw gender age_group acc k b res :
  rankings_step sw gender age_group acc (k, b) = Ok res →
  res = acc
  ∨ ∃ i s name team age grp,
      find_swimmer sw k = Ok (Some (i, s))
      ∧ res = acc ++ [ranking_entry k name team age grp b].
Proof.
  unfold rankings_step. simpl. intros H. inv_ok.
  destruct a as [[i s]|]; [|left; by simplify_eq].
  inv_ok. destruct a as [e|]; [|left; by simplify_eq].
  apply ranking_of_Some in Ha0 as (name & team & age & grp & ->).
  right. exists i, s, name, team, age, grp. split; [done|]. by simplify_eq.
Qed.

(** Every entry of the list built by the ranking loop is the entry of a
    swimmer of the registry and of one of the best times. *)
Lemma rankings_loop_entries sw gender age_group (bts : list (value * best)) res :
  foldR (rankings_step sw gender age_group) bts [] = Ok res →
  ∀ e, e ∈ res →
    ∃ k b i s, (k, b) ∈ bts
      ∧ find_swimmer sw k = Ok (Some (i, s))
      ∧ e !! "swimmer_id" = Some k
      ∧ e !! "time" = Some (bt_time b).
Proof.
  apply (foldR_invariant
           (λ res, ∀ e, e ∈ res → ∃ k b i s, (k, b) ∈ bts
              ∧ find_swimmer sw k = Ok (Some (i, s))
              ∧ e !! "swimmer_id" = Some k ∧ e !! "time" = Some (bt_time b))).
  - intros e He. by apply elem_of_nil in He.
  - intros acc [k b] acc' Hin Hacc Hstep e He.
    apply rankings_step_Ok in Hstep
      as [->|(i & s & name & team & age & grp & Hfind & ->)]; [by apply Hacc|].
    apply elem_of_app in He as [He|He]; [by apply Hacc|].
    apply list_elem_of_singleton in He as ->.
    exists k, b, i, s. split; [done|]. split; [done|].
    split; [apply ranking_entry_swimmer_id|apply ranking_entry_time].
Qed.

(** ** Deleting a swimmer *)

Lemma list_remove_other_ids (x : dict) (l : list dict) :
  unique_ids l → x ∈ l → ∀ y, y ∈ list_remove x l → y !! "id" ≠ x !! "id".
Proof.
  induction l as [|y0 l IH]; intros Huniq Hx y Hy; [by apply elem_of_nil in Hx|].
  assert (Htail : unique_ids l).
  { eapply unique_ids_sublist; [|done]. by apply sublist_cons. }
  assert (Hfresh : ∀ z, z ∈ l → z !! "id" ≠ y0 !! "id").
  { destruct Huniq as [_ Hnd]. unfold ids_of in Hnd. rewrite fmap_cons in Hnd.
    apply NoDup_cons in Hnd as [Hnotin _]. intros z Hz Heq. apply Hnotin.
    rewrite <- Heq. by apply (list_elem_of_fmap_2 (λ s : dict, s !! "id")). }
  simpl in Hy. destruct (dict_eq y0 x) eqn:Heq.
  - assert (y0 !! "id" = x !! "id") as <-; [|by apply Hfresh].
    apply (dict_eq_lookup _ _ "id") in Heq.
    destruct Huniq as [Hall _]. rewrite Forall_forall in Hall.
    destruct (Hall y0 ltac:(by left)) as (a & Ha & _).
    destruct (Hall x Hx) as (b & Hb & _).
    rewrite Ha, Hb in Heq |- *. simpl in Heq. congruence.
  - apply elem_of_cons in Hx as [->|Hx]; [by rewrite dict_eq_refl in Heq|].
    apply elem_of_cons in Hy as [->|Hy].
    + intros Hid. by apply (Hfresh x Hx).
    + by apply IH.
Qed.

(** Once a swimmer is deleted from a registry with unique ids, no record
    carries its id. *)
Lemma deleted_id_gone (l : list dict) (swimmer_id : Z) i s :
  unique_ids l →
  find_swimmer l (VInt swimmer_id) = Ok (Some (i, s)) →
  ∀ s' v, s' ∈ list_remove s l → s' !! "id" = Some v → py_eq v (VInt swimmer_id) = false.
Proof.
  intros Huniq (Hi & v0 & Hv0 & Heq)%find_swimmer_Some s' v Hs' Hv.
  assert (Hs : s ∈ l) by by eapply list_elem_of_lookup_2.
  pose proof (list_remove_other_ids s l Huniq Hs s' Hs') as Hne.
  destruct Huniq as [Hall _]. rewrite Forall_forall in Hall.
  destruct (Hall s Hs) as (a & Ha & _).
  destruct (Hall s' (elem_of_sublist _ _ _ Hs' (list_remove_sublist s l))) as (b & Hb & _).
  rewrite Hv0 in Ha. injection Ha as ->. apply py_eq_VInt in Heq as ->.
  rewrite Hv in Hb. injection Hb as ->.
  apply not_true_is_false. rewrite py_eq_VInt. intros ->. congruence.
Qed.

Lemma find_swimmer_cons (y : dict) (l : list dict) (k : value) :
  find_swimmer (y :: l) k
  = v ← getitem y "id";
    if py_eq v k then Ok (Some (O, y))
    else r ← find_swimmer l k;
         Ok (match r with Some (i, s) => Some (S i, s) | None => None end).
Proof. unfold find_swimmer. simpl. by destruct (getitem y "id"). Qed.

Lemma find_swimmer_absent (l : list dict) (k : value) :
  (∀ z, z ∈ l → ∃ v, z !! "id" = Some v ∧ py_eq v k = false) →
  find_swimmer l k = Ok None.
Proof.
  induction l as [|y l IH]; intros H; [done|].
  rewrite find_swimmer_cons.
  destruct (H y ltac:(by left)) as (v & Hv & Hne).
  apply getitem_Ok in Hv. rewrite Hv. simpl. rewrite Hne.
  rewrite IH; [done|]. intros z Hz. apply H. by right.
Qed.

(** Removing a record from a registry with unique ids does not change which
    record a lookup finds, except that it may find none. *)
Lemma find_swimmer_remove (l : list dict) (x : dict) (k : value) r :
  unique_ids l → x ∈ l → find_swimmer l k = Ok r →
  ∃ r', find_swimmer (list_remove x l) k = Ok r'
        ∧ (r' = None ∨ ∃ i j s, r = Some (i, s) ∧ r' = Some (j, s)).
Proof.
  revert r. induction l as [|y l IH]; intros r Huniq Hx Hfind;
    [by apply elem_of_nil in Hx|].
  assert (Htail : unique_ids l).
  { eapply unique_ids_sublist; [|done]. by apply sublist_cons. }
  rewrite find_swimmer_cons in Hfind. inv_ok. rename a into v.
  simpl. destruct (dict_eq y x) eqn:Heq.
  - destruct (py_eq v k) eqn:Hvk.
    + exists None. split; [|by left].
      apply find_swimmer_absent. intros z Hz.
      destruct Huniq as [Hall Hnd]. rewrite Forall_forall in Hall.
      destruct (Hall z ltac:(by right)) as (c & Hc & _).
      destruct (Hall y ltac:(by left)) as (a & Hya & _).
      exists (VInt c). split; [done|].
      apply getitem_Ok in Ha. rewrite Hya in Ha. injection Ha as <-.
      rewrite py_eq_sym, <- (py_eq_congr _ _ (VInt c) Hvk).
      apply not_true_is_false. rewrite py_eq_VInt. intros ->.
      unfold ids_of in Hnd. rewrite fmap_cons in Hnd.
      apply NoDup_cons in Hnd as [Hnotin _]. apply Hnotin.
      rewrite Hya, <- Hc. by apply (list_elem_of_fmap_2 (λ s : dict, s !! "id")).
    + inv_ok. exists a. split; [done|].
      destruct a as [[j s]|]; [right|by left]. exists (S j), j, s. by simplify_eq.
  - apply elem_of_cons in Hx as [->|Hx]; [by rewrite dict_eq_refl in Heq|].
    rewrite find_swimmer_cons, Ha. simpl. destruct (py_eq v k).
    + exists (Some (O, y)). split; [done|]. right. exists O, O, y. by simplify_eq.
    + inv_ok. destruct (IH a Htail Hx Ha0) as (r' & -> & Hr'). simpl.
      eexists. split; [done|].
      destruct Hr' as [->|(i & j & s & -> & ->)]; [by left|right].
      exists (S i), (S j), s. by simplify_eq.
Qed.

Lemma rankings_step_remove (sw : list dict) (x : dict) gender age_group
    (acc acc' : list dict) item res :
  unique_ids sw → x ∈ sw → acc' `sublist_of` acc →
  rankings_step sw gender age_group acc item = Ok res →
  ∃ res', rankings_step (list_remove x sw) gender age_group acc' item = Ok res'
          ∧ res' `sublist_of` res.
Proof.
  intros Huniq Hx Hsub H. unfold rankings_step in *. inv_ok.
  assert (Hgrow : acc `sublist_of` res).
  { destruct a as [[i s]|]; [|by simplify_eq]. inv_ok.
    destruct a; simplify_eq; [by apply sublist_inserts_r|done]. }
  destruct (find_swimmer_remove _ _ _ _ Huniq Hx Ha)
    as (r' & -> & [->|(i & j & s & -> & ->)]); simpl.
  - exists acc'. split; [done|]. by etrans.
  - inv_ok. rewrite Ha0. simpl. eexists. split; [done|]. simplify_eq.
    destruct a; [by apply sublist_app|done].
Qed.

Lemma rankings_loop_remove (sw : list dict) (x : dict) gender age_group
    (bts : list (value * best)) (acc acc' res : list dict) :
  unique_ids sw → x ∈ sw → acc' `sublist_of` acc →
  foldR (rankings_step sw gender age_group) bts acc = Ok res →
  ∃ res', foldR (rankings_step (list_remove x sw) gender age_group) bts acc' = Ok res'
          ∧ res' `sublist_of` res.
Proof.
  intros Huniq Hx. revert acc acc'.
  induction bts as [|item bts IH]; intros acc acc' Hsub H; simpl in *.
  - exists acc'. split; [done|]. by simplify_eq.
  - inv_ok.
    destruct (rankings_step_remove _ _ _ _ _ _ _ _ Huniq Hx Hsub Ha) as (a' & -> & Hsub').
    simpl. by eapply IH.
Qed.

Lemma mapR_is_ok {A B} (f : A → result B) (l : list A) :
  is_ok (mapR f l) = true ↔ Forall (λ x, is_ok (f x) = true) l.
Proof.
  induction l as [|x l IH]; simpl; [by split|].
  rewrite Forall_cons, <- IH.
  destruct (f x); simpl; [|split; [done|by intros [? _]]].
  destruct (mapR f l); simpl; (split; [done|by intros [_ ?]]).
Qed.

(** A ranking that is answered before a deletion is answered after it. *)
Lemma get_rankings_remove (req : request) (st : store) (x : dict) :
  unique_ids (swimmers st) → x ∈ swimmers st →
  is_ok (get_rankings req st).2 = true →
  is_ok (get_rankings req
           {| swimmers := list_remove x (swimmers st); races := races st |}).2 = true.
Proof.
  intros Huniq Hx. unfold get_rankings. destruct (negb _); [done|]. simpl.
  destruct (build_rankings _ _ _ st) as [pre|] eqn:Hpre; [|done]. simpl.
  unfold build_rankings in *. simpl. inv_ok. rewrite Ha. simpl. rewrite Ha0. simpl.
  destruct (rankings_loop_remove _ x _ _ _ [] [] _ Huniq Hx ltac:(done) Hpre)
    as (pre' & -> & Hsub). simpl.
  unfold sort_by. intros Hok.
  destruct (mapR seconds_of pre) eqn:Hkeys; [|done].
  assert (is_ok (mapR seconds_of pre') = true) as Hok'.
  { apply mapR_is_ok. rewrite Forall_forall. intros e He.
    assert (is_ok (mapR seconds_of pre) = true) as Hall by by rewrite Hkeys.
    rewrite mapR_is_ok, Forall_forall in Hall. apply Hall.
    by eapply elem_of_sublist. }
  by destruct (mapR seconds_of pre').
Qed.

Lemma get_rankings_entries (req : request) (st : store) entries code :
  (get_rankings req st).2 = Ok (respond (JList entries) code) →
  ∀ e, e ∈ entries →
    ∃ k i s, find_swimmer (swimmers st) k = Ok (Some (i, s))
             ∧ e !! "swimmer_id" = Some k.
Proof.
  unfold get_rankings. destruct (negb _); [done|]. simpl. intros H e He.
  inv_ok. unfold respond in H. injection H as <- <-.
  apply assign_ranks_elem in He as (j & x & Hx & ->).
  apply sort_by_perm in Ha0.
  assert (Hpre : x ∈ a).
  { rewrite <- Ha0. by eapply list_elem_of_lookup_2. }
  unfold build_rankings in Ha. inv_ok.
  destruct (rankings_loop_entries _ _ _ _ _ Ha x Hpre) as (k & b & i & s & _ & Hfind & Hk & _).
  exists k, i, s. split; [done|]. by rewrite lookup_insert_ne.
Qed.

(** C10, as stated, fails where two records carry the same id, which an
    update that supplies [id] brings about. After [PUT /api/swimmers/2] with
    the body [{"id": 1}], [DELETE /api/swimmers/1] is answered with status
    200 and removes the first record; the rankings of the 50 m freestyle then
    still hold an entry with [swimmer_id] 1: the best race of the deleted
    swimmer, under the name of the record that took the id. *)
Lemma delete_shared_id_ranked :
  ∃ st' entries e,
    handle_swimmer 1 delete_request shared_id_store
    = (st', Ok (respond (JDict {[ "message" := VStr "Swimmer deleted" ]}) 200))
    ∧ (get_rankings (get_request {[ "event" := "50free" ]}) st').2
      = Ok (respond (JList entries) 200)
    ∧ e ∈ entries
    ∧ e !! "swimmer_id" = Some (VInt 1)
    ∧ e !! "name" = Some (VStr "Emma Thompson")
    ∧ e !! "time" = Some (VStr "29.50").
Proof.
  eexists _, _, _. split; [vm_compute; reflexivity|].
  split; [vm_compute; reflexivity|].
  split; [by left|].
  repeat split; vm_compute; reflexivity.
Qed.

(** C10, amended. A successful [DELETE] of a swimmer leaves the ledger as it
    was: every listing of races and every personal-bests query answers as
    before the deletion, whatever the swimmer. When the ids of the registry
    are pairwise distinct, a ranking that was answered before the deletion is
    still answered after it, with no entry that carries the deleted id. *)
Theorem delete_keeps_races (swimmer_id : Z) (req : request) (st st' : store)
    (resp : response) :
  meth req = DELETE →
  handle_swimmer swimmer_id req st = (st', Ok resp) →
  status resp = 200 →
  races st' = races st
  ∧ (∀ today r, meth r = GET →
       (handle_races today r st').2 = (handle_races today r st).2)
  ∧ (∀ sid, (get_personal_bests sid st').2 = (get_personal_bests sid st).2)
  ∧ (unique_ids (swimmers st) →
     (∀ r, is_ok (get_rankings r st).2 = true → is_ok (get_rankings r st').2 = true)
     ∧ (∀ r entries code e k,
          (get_rankings r st').2 = Ok (respond (JList entries) code) →
          e ∈ entries → e !! "swimmer_id" = Some k →
          py_eq k (VInt swimmer_id) = false)).
Proof.
  intros Hm Hcall Hstatus. unfold handle_swimmer in Hcall. rewrite Hm in Hcall.
  destruct (find_swimmer (swimmers st) (VInt swimmer_id)) as [[[i s]|]|err] eqn:Hfind;
    [|injection Hcall as <- <-; discriminate Hstatus|discriminate Hcall].
  injection Hcall as <- _. simpl. split; [done|]. split; [|split; [|intros Huniq; split]].
  - intros today r Hr. unfold handle_races. by rewrite Hr.
  - done.
  - intros r. apply get_rankings_remove; [done|].
    apply find_swimmer_Some in Hfind as [Hi _]. by eapply list_elem_of_lookup_2.
  - intros r entries code e k Hrank He Hk.
    destruct (get_rankings_entries _ _ _ _ Hrank e He) as (k' & j & s' & Hfind' & Hk').
    rewrite Hk in Hk'. injection Hk' as <-.
    apply find_swimmer_Some in Hfind' as (Hj & v & Hv & Heq). simpl in Hj.
    apply list_elem_of_lookup_2 in Hj.
    pose proof (deleted_id_gone _ _ _ _ Huniq Hfind s' v Hj Hv) as Hgone.
    rewrite <- (py_eq_congr v k _ Heq). done.
Qed.

Lemma delete_keeps_races_witness :
  let st' := (handle_swimmer 1 delete_request sample_store).1 in
  races st' = races sample_store
  ∧ (get_personal_bests 1 st').2 = (get_personal_bests 1 sample_store).2
  ∧ is_ok (get_rankings (get_request {[ "event" := "50free" ]}) st').2 = true
  ∧ (get_rankings (get_request {[ "event" := "50free" ]}) st').2
    = Ok (respond (JList [<["rank" := VInt 1]>
                            (ranking_entry (VInt 2) (VStr "Emma Thompson")
                               (VStr "Queens Aquatics") (VInt 24) (VStr "18-24")
                               {| bt_time := VStr "27.80";
                                  bt_seconds := S754_zero false;
                                  bt_meet := VStr "Unknown";
                                  bt_date := VStr "2024-01-01" |})]) 200).
Proof.
  intros st'.
  destruct (delete_keeps_races 1 delete_request sample_store st'
              (respond (JDict {[ "message" := VStr "Swimmer deleted" ]}) 200))
    as (Hraces & _ & Hpbs & Hrank).
  - reflexivity.
  - vm_compute. reflexivity.
  - reflexivity.
  - destruct (Hrank sample_store_unique_ids) as [Hok _].
    split; [exact Hraces|]. split; [apply Hpbs|].
    split; [apply Hok; vm_compute; reflexivity|]. vm_compute. reflexivity.
Defined.

(** ** The order of floats *)

Lemma SFcompare_key (a b : float) :
  is_nan a = false → is_nan b = false →
  ∃ c, SFcompare a b = Some c
       ∧ (c = Lt ↔ lex_lt (float_key a) (float_key b))
       ∧ (c = Eq ↔ float_key a = float_key b)
       ∧ (c = Gt ↔ lex_lt (float_key b) (float_key a)).
Proof.
  intros Ha Hb. unfold lex_lt.
  destruct a as [[]|[]| |[] m e], b as [[]|[]| |[] m' e']; try done; simpl;
    try (eexists; split; [reflexivity|];
         repeat split; intros; simpl in *; try done; try lia;
         simplify_eq; first [done | lia]).
  all: change (Pos.compare_cont Eq m m') with (m ?= m')%positive;
    destruct (Z.compare_spec e e'), (Pos.compare_spec m m'); simpl;
    (eexists; split; [reflexivity|]);
    repeat split; intros; simpl in *; try done; try lia;
    simplify_eq; first [done | lia].
Qed.

Lemma float_lt_key (a b : float) :
  float_lt a b = true ↔
  is_nan a = false ∧ is_nan b = false ∧ lex_lt (float_key a) (float_key b).
Proof.
  unfold float_lt, SFltb.
  destruct (is_nan a) eqn:Ha; [destruct a; try done; split; [done|by intros (? & _)]|].
  destruct (is_nan b) eqn:Hb;
    [destruct b; try done; destruct a; split; try done; by intros (_ & ? & _)|].
  destruct (SFcompare_key a b Ha Hb) as (c & -> & Hlt & _ & _).
  destruct c; (split; [intros H|intros (_ & _ & H)]);
    try done; try (repeat split; by apply Hlt); by apply Hlt in H.
Qed.

Lemma float_le_key (a b : float) :
  float_le a b = true ↔
  is_nan a = false ∧ is_nan b = false ∧ lex_le (float_key a) (float_key b).
Proof.
  unfold float_le, SFleb, lex_le.
  destruct (is_nan a) eqn:Ha; [destruct a; try done; split; [done|by intros (? & _)]|].
  destruct (is_nan b) eqn:Hb;
    [destruct b; try done; destruct a; split; try done; by intros (_ & ? & _)|].
  destruct (SFcompare_key a b Ha Hb) as (c & -> & Hlt & Heq & Hgt).
  destruct c; (split; [intros H|intros (_ & _ & H)]); try done.
  - repeat split. right. by apply Heq.
  - repeat split. left. by apply Hlt.
  - destruct H as [H|H]; [apply Hlt in H|apply Heq in H]; done.
Qed.

Lemma float_eq_key (a b : float) :
  float_eq a b = true ↔
  is_nan a = false ∧ is_nan b = false ∧ float_key a = float_key b.
Proof.
  unfold float_eq, SFeqb.
  destruct (is_nan a) eqn:Ha; [destruct a; try done; split; [done|by intros (? & _)]|].
  destruct (is_nan b) eqn:Hb;
    [destruct b; try done; destruct a; split; try done; by intros (_ & ? & _)|].
  destruct (SFcompare_key a b Ha Hb) as (c & -> & Hlt & Heq & Hgt).
  destruct c; (split; [intros H|intros (_ & _ & H)]);
    try done; try (repeat split; by apply Heq); by apply Heq in H.
Qed.

(** Reduces a goal about the order of floats to linear arithmetic on keys. *)
Ltac float_order :=
  repeat match goal with
  | H : float_lt _ _ = true |- _ => apply float_lt_key in H as (? & ? & H)
  | H : float_le _ _ = true |- _ => apply float_le_key in H as (? & ? & H)
  | H : float_eq _ _ = true |- _ => apply float_eq_key in H as (? & ? & H)
  | H : float_lt _ _ = false |- _ => apply not_true_iff_false in H; rewrite float_lt_key in H
  | H : float_le _ _ = false |- _ => apply not_true_iff_false in H; rewrite float_le_key in H
  | H : float_eq _ _ = false |- _ => apply not_true_iff_false in H; rewrite float_eq_key in H
  | |- float_lt _ _ = false => apply not_true_iff_false; rewrite float_lt_key; intros (? & ? & ?)
  | |- float_le _ _ = false => apply not_true_iff_false; rewrite float_le_key; intros (? & ? & ?)
  | |- float_eq _ _ = false => apply not_true_iff_false; rewrite float_eq_key; intros (? & ? & ?)
  | |- float_lt _ _ = true => apply float_lt_key; split; [done|split; [done|]]
  | |- float_le _ _ = true => apply float_le_key; split; [done|split; [done|]]
  | |- float_eq _ _ = true => apply float_eq_key; split; [done|split; [done|]]
  end;
  unfold lex_le, lex_lt in *;
  repeat match goal with
  | H : context [float_key ?f] |- _ => destruct (float_key f) as [[? ?] ?]
  | |- context [float_key ?f] => destruct (float_key f) as [[? ?] ?]
  end;
  simpl in *;
  try (intuition (simplify_eq; first [lia | f_equal; lia | done])).

Lemma float_lt_irrefl (a : float) : float_lt a a = false.
Proof. float_order. Qed.

Lemma float_lt_trans (a b c : float) :
  float_lt a b = true → float_lt b c = true → float_lt a c = true.
Proof. intros. float_order. Qed.

Lemma float_le_trans (a b c : float) :
  float_le a b = true → float_le b c = true → float_le a c = true.
Proof. intros. float_order. Qed.


Lemma float_le_lt_trans (a b c : float) :
  float_le a b = true → float_lt b c = true → float_lt a c = true.
Proof. intros. float_order. Qed.




Lemma float_eq_le (a b : float) :
  float_eq a b = true ↔ float_le a b = true ∧ float_le b a = true.
Proof.
  split.
  - intros H. split; float_order.
  - intros [H1 H2]. float_order.
Qed.


Lemma float_lt_nan (a b : float) :
  float_lt a b = true → is_nan a = false ∧ is_nan b = false.
Proof. intros (? & ? & _)%float_lt_key. done. Qed.

(** ** Personal bests at insertion *)










(** C1. The flag is wrong once a time of the ledger is not a number. The
    time "nan" is accepted ([float("nan")], status 201); a NaN is [<] nothing
    and nothing is [<] it. After the times "nan" and "20" of one swimmer in
    one event, the time "10" is stored with [isPB] false, although 10 is
    below 20 and no earlier time is below 10: [min] has kept the NaN it met
    first. After the times "20" and "nan", the time "10" is stored with
    [isPB] true, although it is not [<] the earlier NaN. *)
Theorem is_pb_nan_ledger :
  statuses (run_all (submissions ["nan"; "20"; "10"]) empty_store).2
  = [Ok 201; Ok 201; Ok 201]
  ∧ mapR seconds_of (races nan_first)
    = Ok [S754_nan; S754_finite false 5629499534213120 (-48);
          S754_finite false 5629499534213120 (-49)]
  ∧ (λ r : dict, r !! "isPB") <$> races nan_first
    = [Some (VBool true); Some (VBool false); Some (VBool false)]
  ∧ py_min [S754_nan; S754_finite false 5629499534213120 (-48)] = Ok S754_nan
  ∧ float_lt (S754_finite false 5629499534213120 (-49))
             (S754_finite false 5629499534213120 (-48)) = true
  ∧ statuses (run_all (submissions ["20"; "nan"; "10"]) empty_store).2
    = [Ok 201; Ok 201; Ok 201]
  ∧ mapR seconds_of (races nan_second)
    = Ok [S754_finite false 5629499534213120 (-48); S754_nan;
          S754_finite false 5629499534213120 (-49)]
  ∧ (λ r : dict, r !! "isPB") <$> races nan_second
    = [Some (VBool true); Some (VBool false); Some (VBool true)]
  ∧ float_lt (S754_finite false 5629499534213120 (-49)) S754_nan = false.
Proof. repeat split; vm_compute; reflexivity. Qed.

(** ** The sort orders the keys and keeps ties in place *)



Lemma insert_by_nan {A} (k : float) (x : A) (l : list (float * A)) :
  is_nan k = false → Forall (λ kx, is_nan kx.1 = false) l →
  Forall (λ kx, is_nan kx.1 = false) (insert_by k x l).
Proof. intros Hk Hl. rewrite insert_by_perm. by constructor. Qed.





(** ** Rankings *)






Lemma mapR_ext {A B} (f g : A → result B) (l : list A) :
  (∀ x, x ∈ l → f x = g x) → mapR f l = mapR g l.
Proof.
  induction l as [|x l IH]; intros H; simpl; [done|].
  rewrite (H x) by by left. rewrite IH; [done|]. intros y Hy. apply H. by right.
Qed.





#[local] Instance float_le_transitive : Transitive (λ a b, float_le a b = true).
Proof. intros a b c. apply float_le_trans. Qed.




Lemma float_le_nan_l (x : float) : float_le S754_nan x = false.
Proof. done. Qed.

Lemma float_le_nan_r (x : float) : float_le x S754_nan = false.
Proof. by destruct x as [| | |[]]. Qed.

(** A list of two floats or more with a NaN among them is not
    non-decreasing, in whatever order. *)
Lemma nan_not_sorted (l : list float) :
  S754_nan ∈ l → (2 ≤ length l)%nat →
  ¬ StronglySorted (λ a b, float_le a b = true) l.
Proof.
  intros Hnan Hlen Hs. induction Hs as [|x l Hs IH Hall]; [by apply elem_of_nil in Hnan|].
  rewrite Forall_forall in Hall.
  apply elem_of_cons in Hnan as [<-|Hin].
  - destruct l as [|y l]; [simpl in Hlen; lia|].
    specialize (Hall y ltac:(by left)). by rewrite float_le_nan_l in Hall.
  - specialize (Hall _ Hin). by rewrite float_le_nan_r in Hall.
Qed.

(** A list in which no key is [<] the key before it is one ascending run:
    the sort leaves it as it is. *)
Lemma sort_keyed_run {A} (l : list (float * A)) :
  Sorted (λ a b, float_lt b.1 a.1 = false) l → sort_keyed l = l.
Proof.
  induction 1 as [|[k x] l Hs IH Hhd]; [done|].
  unfold sort_keyed in *. simpl. rewrite IH.
  destruct Hhd as [|[k' y] l' Hlt]; [done|]. simpl in *. by rewrite Hlt.
Qed.

(** C2. The array is out of order once a time of the ledger is not a number.
    With four registered swimmers and one race each, of times "3", "nan",
    "1" and "2" in ledger order, nothing in the list is [<] what precedes it
    and the sort leaves the list as it is: the ranks 1 to 4 go to the times
    3, NaN, 1 and 2, so that the rank 1 goes to a time above the time of
    rank 3. No other order would do either: these four times are not
    non-decreasing in any order. *)
Theorem rankings_nan_order :
  ∃ entries,
    (get_rankings (get_request {[ "event" := "50free" ]}) nan_meet).2
    = Ok (respond (JList entries) 200)
    ∧ (λ e : dict, (e !! "rank", e !! "time")) <$> entries
      = [(Some (VInt 1), Some (VStr "3")); (Some (VInt 2), Some (VStr "nan"));
         (Some (VInt 3), Some (VStr "1")); (Some (VInt 4), Some (VStr "2"))]
    ∧ mapR seconds_of entries = Ok nan_meet_times
    ∧ float_lt (S754_finite false 4503599627370496 (-52))
               (S754_finite false 6755399441055744 (-51)) = true
    ∧ ∀ times, times ≡ₚ nan_meet_times →
        ¬ StronglySorted (λ a b, float_le a b = true) times.
Proof.
  eexists. split; [vm_compute; reflexivity|].
  split; [vm_compute; reflexivity|].
  split; [vm_compute; reflexivity|].
  split; [vm_compute; reflexivity|].
  intros times Hperm. apply nan_not_sorted.
  - rewrite Hperm. unfold nan_meet_times. set_solver.
  - rewrite Hperm. simpl. lia.
Qed.

(** ** Personal bests *)
















(** C4. The mapping does not hold the fastest race once a time of the ledger
    is not a number. After the times "nan", "20" and "10" of one swimmer in
    one event, the personal best answered for the event is the entry of time
    "nan": it seeds the mapping, and neither 20 nor 10 is [<] a NaN. *)
Theorem personal_bests_nan_kept :
  ∃ pb,
    (get_personal_bests 1 nan_first).2
    = Ok (respond (JMap [(VStr "50free", pb)]) 200)
    ∧ pb !! "time" = Some (VStr "nan")
    ∧ (λ r : dict, r !! "time") <$> races_in (VStr "50free") (races_of 1 (races nan_first))
      = [Some (VStr "nan"); Some (VStr "20"); Some (VStr "10")]
    ∧ mapR seconds_of (races_in (VStr "50free") (races_of 1 (races nan_first)))
      = Ok [S754_nan; S754_finite false 5629499534213120 (-48);
            S754_finite false 5629499534213120 (-49)]
    ∧ float_lt (S754_finite false 5629499534213120 (-48)) S754_nan = false
    ∧ float_lt (S754_finite false 5629499534213120 (-49)) S754_nan = false
    ∧ float_lt (S754_finite false 5629499534213120 (-49))
               (S754_finite false 5629499534213120 (-48)) = true.
Proof.
  eexists. split; [vm_compute; reflexivity|].
  repeat split; vm_compute; reflexivity.
Qed.

(** * Further properties of the handlers *)

(** ** The ledger only grows *)

(** What [handle_races] can do to the store: nothing, or append the
    submission, completed with [id], [isPB] and [date]. *)
Lemma handle_races_inv (today : string) (req : request) (st st' : store)
    (r : result response) :
  handle_races today req st = (st', r) →
  (st' = st ∧ ∀ c, r ≠ Ok (respond (JDict c) 201))
  ∨ (∃ new_race n pb,
       meth req = POST ∧ json req = Some new_race
       ∧ next_id (races st) = Ok n
       ∧ let stored := <["isPB" := VBool pb]> (<["id" := VInt n]> new_race) in
         let stored := if contains stored "date" then stored
                       else <["date" := VStr today]> stored in
         st' = {| swimmers := swimmers st; races := races st ++ [stored] |}
         ∧ r = Ok (respond (JDict stored) 201)).
Proof.
  unfold handle_races. intros H. destruct (meth req); [| |by left; simplify_eq..].
  - left. injection H as <- <-. split; [done|]. intros c Heq.
    inv_ok. unfold respond in Heq. discriminate Heq.
  - destruct (json req) as [new_race|]; [|by left; simplify_eq].
    destruct (negb _); [by left; simplify_eq|].
    destruct (next_id (races st)) as [n|e] eqn:Hn; simpl in H; [|by left; simplify_eq].
    match type of H with
    | match ?c with _ => _ end = _ => destruct c as [stored|] eqn:Hc; [|by left; simplify_eq]
    end.
    right. inv_ok. exists new_race, n. eexists. split; [done|]. split; [done|].
    split; [done|]. simpl. by simplify_eq.
Qed.

Lemma api_step_races (c : api_call) (st : store) :
  races (api_step c st).1 = races st
  ∨ ∃ stored, races (api_step c st).1 = races st ++ [stored].
Proof.
  destruct c as [req|swimmer_id req|today req|req|swimmer_id]; simpl.
  - destruct (handle_swimmers req st) as [st' r] eqn:Hcall.
    apply handle_swimmers_inv in Hcall as [[-> _]|(n & created & _ & _ & -> & _)];
      by left.
  - by destruct (handle_swimmer_inv swimmer_id req st)
      as [->|(i & s & _ & [[_ ->]|[_ ->]])]; left.
  - destruct (handle_races today req st) as [st' r] eqn:Hcall.
    apply handle_races_inv in Hcall
      as [[-> _]|(new_race & n & pb & _ & _ & _ & Hst)]; [by left|].
    simpl in Hst. destruct Hst as [-> _]. right. by eexists.
  - left. unfold get_rankings. by destruct (negb _).
  - by left.
Qed.

(** X1. The ledger is append-only: whatever calls are made, every entry of
    the ledger stays at its place, unchanged, and each call adds at most one
    entry at the end. *)
Theorem ledger_append_only (cs : list api_call) (st : store) :
  ∃ added, races (run_api cs st) = races st ++ added
           ∧ (length added ≤ length cs)%nat.
Proof.
  revert st. induction cs as [|c cs IH]; intros st; simpl.
  - exists []. by rewrite app_nil_r.
  - destruct (IH (api_step c st).1) as (added & -> & Hlen).
    destruct (api_step_races c st) as [->|(stored & ->)].
    + exists added. split; [done|lia].
    + exists (stored :: added). rewrite <- app_assoc. split; [done|]. simpl. lia.
Qed.

(** ** Race identifiers *)

Lemma api_step_race_ids (c : api_call) (st : store) :
  unique_ids (races st) → unique_ids (races (api_step c st).1).
Proof.
  intros Huniq. destruct c as [req|swimmer_id req|today req|req|swimmer_id]; simpl.
  - destruct (handle_swimmers req st) as [st' r] eqn:Hcall.
    by apply handle_swimmers_inv in Hcall as [[-> _]|(n & created & _ & _ & -> & _)].
  - by destruct (handle_swimmer_inv swimmer_id req st)
      as [->|(i & s & _ & [[_ ->]|[_ ->]])].
  - destruct (handle_races today req st) as [st' r] eqn:Hcall.
    apply handle_races_inv in Hcall
      as [[-> _]|(new_race & n & pb & _ & _ & Hn & Hst)]; [done|].
    simpl in Hst. destruct Hst as [-> _]. simpl.
    eapply unique_ids_create; [done..|].
    destruct (contains _ "date"); [|rewrite lookup_insert_ne by done];
      rewrite lookup_insert_ne by done; by rewrite lookup_insert_eq.
  - unfold get_rankings. by destruct (negb _).
  - done.
Qed.

(** X2. Race ids stay unique: if the ids of the ledger are pairwise distinct
    positive integers, they still are after any sequence of calls, whatever
    [id] the submissions carry. *)
Theorem race_ids_unique (cs : list api_call) (st : store) :
  unique_ids (races st) → unique_ids (races (run_api cs st)).
Proof.
  revert st. induction cs as [|c cs IH]; intros st Huniq; simpl; [done|].
  apply IH. by apply api_step_race_ids.
Qed.

Lemma sample_store_race_ids : unique_ids (races sample_store).
Proof.
  split.
  - repeat constructor; eexists; (split; [vm_compute; reflexivity|lia]).
  - apply (bool_decide_unpack _). by vm_compute.
Qed.

Lemma race_ids_unique_witness :
  unique_ids (races sample_store)
  ∧ unique_ids (races (run_api sample_session sample_store)).
Proof.
  split; [apply sample_store_race_ids|].
  apply (race_ids_unique sample_session sample_store). apply sample_store_race_ids.
Defined.

(** ** Times that do not parse *)

Lemma split_length (sep : ascii) (s : string) :
  length (split sep s) = S (count_char sep s).
Proof.
  induction s as [|c s IH]; simpl; [done|].
  destruct (Ascii.eqb c sep); simpl; [by rewrite IH|].
  destruct (split sep s) as [|h t]; simpl in *; [done|lia].
Qed.

Lemma has_char_count (sep : ascii) (s : string) :
  has_char sep s = true ↔ (1 ≤ count_char sep s)%nat.
Proof.
  induction s as [|c s IH]; simpl; [split; [done|lia]|].
  destruct (Ascii.eqb c sep); simpl; [split; [lia|done]|done].
Qed.

(** X3. [time_to_seconds] raises [ValueError] on every string with two
    colons or more, whatever lies between them, and [TypeError] on [None], on
    a boolean and on an integer. *)
Theorem time_to_seconds_rejects (t : string) (b : bool) (z : Z) :
  (2 ≤ count_char ":" t)%nat →
  time_to_seconds (VStr t) = Raise ValueError
  ∧ time_to_seconds VNone = Raise TypeError
  ∧ time_to_seconds (VBool b) = Raise TypeError
  ∧ time_to_seconds (VInt z) = Raise TypeError.
Proof.
  intros Hcount. split; [|done].
  unfold time_to_seconds.
  assert (has_char ":" t = true) as -> by (apply has_char_count; lia).
  pose proof (split_length ":" t) as Hlen.
  destruct (split ":" t) as [|m [|s [|x l]]]; simpl in Hlen; try done; lia.
Qed.

Lemma time_to_seconds_rejects_witness :
  time_to_seconds (VStr "1:02:03.5") = Raise ValueError
  ∧ time_to_seconds (VInt 61) = Raise TypeError.
Proof.
  destruct (time_to_seconds_rejects "1:02:03.5" true 61) as (H1 & _ & _ & H2).
  - simpl. lia.
  - split; [exact H1|exact H2].
Defined.

(** X4. A submission with all required fields whose [time] does not parse
    is not answered: the handler raises, and the store is returned as it
    was. The exception is the one [time_to_seconds] raises, unless the ids of
    the ledger already made [max] fail. *)
Theorem race_bad_time (today : string) (req : request) (st : store)
    (new_race : dict) (t : value) (e : exn) :
  meth req = POST →
  json req = Some new_race →
  has_all race_required new_race = true →
  new_race !! "time" = Some t →
  time_to_seconds t = Raise e →
  ∃ e', handle_races today req st = (st, Raise e')
        ∧ (is_ok (next_id (races st)) = true → e' = e).
Proof.
  intros Hm Hj Hall Ht He. unfold handle_races. rewrite Hm, Hj, Hall. simpl.
  destruct (next_id (races st)) as [n|e0]; simpl; [|by exists e0].
  assert (is_Some (new_race !! "swimmer_id")) as [sid Hsid].
  { apply (has_all_true race_required); [done|]. unfold race_required. set_solver. }
  assert (is_Some (new_race !! "event")) as [ev Hev].
  { apply (has_all_true race_required); [done|]. unfold race_required. set_solver. }
  unfold getitem. rewrite !lookup_insert_ne by done. rewrite Hsid, Hev, Ht. simpl.
  rewrite He. simpl. by exists e.
Qed.

Lemma race_bad_time_witness :
  handle_races "2024-02-01" (post_request (new_race_fields 1 "50free" "1:2:3" 3)) sample_store
  = (sample_store, Raise ValueError).
Proof.
  destruct (race_bad_time "2024-02-01"
              (post_request (new_race_fields 1 "50free" "1:2:3" 3)) sample_store
              (new_race_fields 1 "50free" "1:2:3" 3) (VStr "1:2:3") ValueError)
    as (e' & Hrun & He').
  - reflexivity.
  - reflexivity.
  - vm_compute. reflexivity.
  - reflexivity.
  - vm_compute. reflexivity.
  - rewrite Hrun. f_equal. f_equal. apply He'. vm_compute. reflexivity.
Defined.

(** ** What a submission stores *)

Lemma handle_races_201 (today : string) (req : request) (st st' : store)
    (resp : response) :
  handle_races today req st = (st', Ok resp) → status resp = 201 →
  ∃ new_race n pb,
    json req = Some new_race
    ∧ next_id (races st) = Ok n
    ∧ let stored := <["isPB" := VBool pb]> (<["id" := VInt n]> new_race) in
      let stored := if contains stored "date" then stored
                    else <["date" := VStr today]> stored in
      st' = {| swimmers := swimmers st; races := races st ++ [stored] |}
      ∧ resp = respond (JDict stored) 201.
Proof.
  intros H Hst. unfold handle_races in H. destruct (meth req).
  - injection H as <- H. inv_ok. injection H as <-. done.
  - destruct (json req) as [new_race|]; [|by simplify_eq].
    destruct (negb _); [by simplify_eq|].
    destruct (next_id (races st)) as [n|e] eqn:Hn; simpl in H; [|by simplify_eq].
    match type of H with
    | match ?c with _ => _ end = _ => destruct c as [stored|] eqn:Hc; [|by simplify_eq]
    end.
    inv_ok. exists new_race, n. eexists. split; [done|]. split; [done|].
    simpl. by simplify_eq.
  - by simplify_eq.
  - by simplify_eq.
Qed.

(** X5. A submission answered with 201 is stored with the fields it
    supplied, except that [id] is the next id of the ledger and [isPB] the
    computed flag, whatever the body said for them, and that [date] is
    today's date when the body has none. The registry is not touched. *)
Theorem race_stored_fields (today : string) (req : request) (st st' : store)
    (resp : response) :
  handle_races today req st = (st', Ok resp) →
  status resp = 201 →
  ∃ new_race stored n pb,
    json req = Some new_race
    ∧ payload resp = JDict stored
    ∧ st' = {| swimmers := swimmers st; races := races st ++ [stored] |}
    ∧ next_id (races st) = Ok n
    ∧ stored !! "id" = Some (VInt n)
    ∧ stored !! "isPB" = Some (VBool pb)
    ∧ stored !! "date" = Some (default (VStr today) (new_race !! "date"))
    ∧ ∀ k, k ≠ "id" → k ≠ "isPB" → k ≠ "date" → stored !! k = new_race !! k.
Proof.
  intros H Hst.
  destruct (handle_races_201 _ _ _ _ _ H Hst) as (new_race & n & pb & Hj & Hn & Hstored).
  simpl in Hstored. destruct Hstored as [-> ->].
  exists new_race. eexists. exists n, pb.
  split; [done|]. split; [done|]. split; [done|]. split; [done|].
  destruct (contains _ "date") eqn:Hc.
  - apply contains_true in Hc as [d Hd].
    rewrite !lookup_insert_ne in Hd by done. rewrite Hd. simpl.
    rewrite lookup_insert_ne by done. rewrite !lookup_insert_eq.
    rewrite !lookup_insert_ne by done.
    split; [done|]. split; [done|]. split; [done|].
    intros k ? ? ?. by rewrite !lookup_insert_ne.
  - apply not_true_iff_false in Hc. rewrite contains_true in Hc.
    rewrite !lookup_insert_ne in Hc by done.
    apply eq_None_not_Some in Hc. rewrite Hc. simpl.
    rewrite !(lookup_insert_ne _ "date") by done.
    rewrite lookup_insert_ne by done. rewrite !lookup_insert_eq.
    split; [done|]. split; [done|]. split; [done|].
    intros k ? ? ?. by rewrite !lookup_insert_ne.
Qed.

Lemma race_stored_fields_witness :
  let body := <["isPB" := VBool true]> (<["id" := VInt 99]> (<["lane" := VInt 4]>
                (new_race_fields 1 "50free" "31.00" 2))) in
  ∃ stored,
    races (handle_races "2024-02-01" (post_request body) sample_store).1
    = races sample_store ++ [stored]
    ∧ stored !! "id" = Some (VInt 6)
    ∧ stored !! "lane" = Some (VInt 4)
    ∧ stored !! "date" = Some (VStr "2024-02-01").
Proof.
  intros body.
  destruct (race_stored_fields "2024-02-01" (post_request body) sample_store
              (handle_races "2024-02-01" (post_request body) sample_store).1
              (respond (JDict (<["date" := VStr "2024-02-01"]> (<["isPB" := VBool false]>
                 (<["id" := VInt 6]> body)))) 201))
    as (new_race & stored & n & pb & Hj & _ & Hst & Hn & Hid & _ & Hdate & Hkeep).
  - vm_compute. reflexivity.
  - reflexivity.
  - injection Hj as <-. exists stored. rewrite Hst. split; [reflexivity|].
    assert (n = 6) as -> by (vm_compute in Hn; by injection Hn).
    split; [exact Hid|]. split; [by rewrite Hkeep|exact Hdate].
Defined.

(** X6. A submission is handled without looking at the registry: with any
    other list of swimmers the answer is the same and the ledger ends up the
    same, so that a [swimmer_id] nobody carries is accepted like any other. *)
Theorem races_ignore_registry (today : string) (req : request) (st : store)
    (sw : list dict) :
  handle_races today req {| swimmers := sw; races := races st |}
  = ({| swimmers := sw; races := races (handle_races today req st).1 |},
     (handle_races today req st).2).
Proof.
  unfold handle_races. simpl. destruct (meth req); try done.
  destruct (json req) as [new_race|]; [|done].
  destruct (negb _); [done|].
  match goal with
  | |- match ?c with _ => _ end = _ => destruct c
  end; done.
Qed.

(** ** What a registration stores *)

Lemma handle_swimmers_201 (req : request) (st st' : store) (resp : response) :
  handle_swimmers req st = (st', Ok resp) → status resp = 201 →
  ∃ new_swimmer n age g,
    json req = Some new_swimmer
    ∧ next_id (swimmers st) = Ok n
    ∧ new_swimmer !! "age" = Some age
    ∧ age_group age = Ok g
    ∧ let created := <["ageGroup" := VStr g]> (<["id" := VInt n]> new_swimmer) in
      st' = {| swimmers := swimmers st ++ [created]; races := races st |}
      ∧ resp = respond (JDict created) 201.
Proof.
  intros H Hst. unfold handle_swimmers in H. destruct (meth req).
  - destruct (truthy _); injection H as <- H; inv_ok; by simplify_eq.
  - destruct (json req) as [new_swimmer|]; [|by simplify_eq].
    destruct (negb _); [by simplify_eq|].
    destruct (next_id (swimmers st)) as [n|e] eqn:Hn; simpl in H; [|by simplify_eq].
    destruct (getitem _ "age") as [age|e] eqn:Hage; simpl in H; [|by simplify_eq].
    destruct (age_group age) as [g|e] eqn:Hg; simpl in H; [|by simplify_eq].
    apply getitem_Ok in Hage. rewrite lookup_insert_ne in Hage by done.
    exists new_swimmer, n, age, g. simpl. by simplify_eq.
  - by simplify_eq.
  - by simplify_eq.
Qed.

(** X7. A registration answered with 201 appends, at the end of the
    registry, the body it received with two fields set by the handler: [id],
    the next id of the registry, and [ageGroup], the group of the supplied
    [age]. Every other field, required or not, is stored as supplied; an
    [id] or an [ageGroup] in the body is overwritten. The ledger is not
    touched. *)
Theorem swimmer_created_fields (req : request) (st st' : store) (resp : response) :
  handle_swimmers req st = (st', Ok resp) →
  status resp = 201 →
  ∃ new_swimmer created n age g,
    json req = Some new_swimmer
    ∧ payload resp = JDict created
    ∧ st' = {| swimmers := swimmers st ++ [created]; races := races st |}
    ∧ next_id (swimmers st) = Ok n
    ∧ created !! "id" = Some (VInt n)
    ∧ new_swimmer !! "age" = Some age
    ∧ age_group age = Ok g
    ∧ created !! "ageGroup" = Some (VStr g)
    ∧ ∀ k, k ≠ "id" → k ≠ "ageGroup" → created !! k = new_swimmer !! k.
Proof.
  intros H Hst.
  destruct (handle_swimmers_201 _ _ _ _ H Hst)
    as (new_swimmer & n & age & g & Hj & Hn & Hage & Hg & Hcreated).
  simpl in Hcreated. destruct Hcreated as [-> ->].
  exists new_swimmer. eexists. exists n, age, g.
  do 4 (split; [done|]). rewrite lookup_insert_ne by done.
  rewrite !lookup_insert_eq. do 4 (split; [done|]).
  intros k ? ?. by rewrite !lookup_insert_ne.
Qed.

Lemma swimmer_created_fields_witness :
  let body := <["id" := VInt 77]> (<["email" := VStr "test@swimmer.com"]>
                (new_swimmer_fields "Test Swimmer" 25 "M" "Test Team")) in
  ∃ created,
    swimmers (handle_swimmers (post_request body) sample_store).1
    = swimmers sample_store ++ [created]
    ∧ created !! "id" = Some (VInt 3)
    ∧ created !! "email" = Some (VStr "test@swimmer.com").
Proof.
  intros body.
  destruct (swimmer_created_fields (post_request body) sample_store
              (handle_swimmers (post_request body) sample_store).1
              (respond (JDict (<["ageGroup" := VStr "25-29"]> (<["id" := VInt 3]> body))) 201))
    as (new_swimmer & created & n & age & g & Hj & _ & Hst & Hn & Hid & _ & _ & _ & Hkeep).
  - vm_compute. reflexivity.
  - reflexivity.
  - injection Hj as <-. exists created. rewrite Hst. split; [reflexivity|].
    assert (n = 3) as -> by (vm_compute in Hn; by injection Hn).
    split; [exact Hid|]. by rewrite Hkeep.
Defined.

(** X8. A registration without a JSON body, or whose body lacks one of
    [name], [age], [gender], [team], is answered with status 400 and an error
    message; the store is returned as it was. *)
Theorem swimmer_rejected (req : request) (st : store) :
  meth req = POST →
  (json req = None
   ∨ ∃ new_swimmer field, json req = Some new_swimmer
       ∧ field ∈ swimmer_required ∧ new_swimmer !! field = None) →
  ∃ msg, handle_swimmers req st = (st, Ok (error msg 400)).
Proof.
  intros Hm [Hj|(new_swimmer & field & Hj & Hin & Hnone)];
    unfold handle_swimmers; rewrite Hm, Hj.
  - by eexists.
  - rewrite (has_all_false _ _ _ Hin Hnone). by eexists.
Qed.

Lemma swimmer_rejected_witness :
  ∃ msg, handle_swimmers (post_request {[ "name" := VStr "Incomplete Swimmer" ]}) sample_store
         = (sample_store, Ok (error msg 400)).
Proof.
  apply (swimmer_rejected (post_request {[ "name" := VStr "Incomplete Swimmer" ]}) sample_store).
  - reflexivity.
  - right. exists {[ "name" := VStr "Incomplete Swimmer" ]}, "team".
    split; [reflexivity|]. split; [|reflexivity].
    unfold swimmer_required. set_solver.
Defined.

(** ** Looking swimmers up *)

(** X9. When no record of the registry carries the requested id, [GET],
    [PUT] and [DELETE] on [/api/swimmers/<id>] are answered with status 404
    and the store is returned as it was. *)
Theorem swimmer_not_found (swimmer_id : Z) (req : request) (st : store) :
  meth req ≠ POST →
  (∀ s, s ∈ swimmers st → ∃ v, s !! "id" = Some v ∧ py_eq v (VInt swimmer_id) = false) →
  handle_swimmer swimmer_id req st = (st, Ok (error "Swimmer not found" 404)).
Proof.
  intros Hm Hnone. unfold handle_swimmer.
  rewrite (find_swimmer_absent _ _ Hnone). by destruct (meth req).
Qed.

Lemma swimmer_not_found_witness :
  handle_swimmer 99999 (put_request {[ "age" := VInt 30 ]}) sample_store
  = (sample_store, Ok (error "Swimmer not found" 404)).
Proof.
  apply (swimmer_not_found 99999 (put_request {[ "age" := VInt 30 ]}) sample_store).
  - intros H. discriminate H.
  - apply (proj1 (Forall_forall
             (λ s : dict, ∃ v, s !! "id" = Some v ∧ py_eq v (VInt 99999) = false) _)).
    repeat constructor; eexists; (split; [vm_compute; reflexivity|reflexivity]).
Defined.

Lemma find_swimmer_snoc (l : list dict) (x : dict) (k v : value) :
  (∀ s, s ∈ l → ∃ w, s !! "id" = Some w ∧ py_eq w k = false) →
  x !! "id" = Some v → py_eq v k = true →
  find_swimmer (l ++ [x]) k = Ok (Some (length l, x)).
Proof.
  intros Hl Hx Hv. induction l as [|y l IH]; simpl.
  - rewrite find_swimmer_cons. apply getitem_Ok in Hx. rewrite Hx. simpl. by rewrite Hv.
  - rewrite find_swimmer_cons. destruct (Hl y ltac:(by left)) as (w & Hw & Hne).
    apply getitem_Ok in Hw. rewrite Hw. simpl. rewrite Hne.
    rewrite IH; [done|]. intros s Hs. apply Hl. by right.
Qed.

(** The next id is carried by no record of a registry with unique ids. *)
Lemma next_id_fresh (l : list dict) (n : Z) :
  unique_ids l → next_id l = Ok n →
  ∀ s, s ∈ l → ∃ w, s !! "id" = Some w ∧ py_eq w (VInt n) = false.
Proof.
  intros Huniq Hn s Hs.
  destruct Huniq as [Hall Hnd]. rewrite Forall_forall in Hall.
  destruct (Hall s Hs) as (k & Hk & _). exists (VInt k). split; [done|].
  apply not_true_is_false. rewrite py_eq_VInt. intros ->.
  destruct (next_id_nil_or_max l n Hn) as [_ Hmax].
  destruct Hmax as [_ Hle]; [by intros ->; apply elem_of_nil in Hs|].
  assert (id_number s = Some n) as Hnum by (unfold id_number; by rewrite Hk).
  specialize (Hle s n Hs Hnum). lia.
Qed.

(** X10. Round trip: in a registry with unique ids, the record answered by a
    successful registration is the record that [GET /api/swimmers/<id>]
    answers, with status 200, for the id the registration assigned. *)
Theorem create_then_get (req req' : request) (st st' : store) (resp : response) :
  unique_ids (swimmers st) →
  handle_swimmers req st = (st', Ok resp) →
  status resp = 201 →
  meth req' = GET →
  ∃ created n,
    payload resp = JDict created
    ∧ created !! "id" = Some (VInt n)
    ∧ handle_swimmer n req' st' = (st', Ok (respond (JDict created) 200)).
Proof.
  intros Huniq H Hst Hm.
  destruct (handle_swimmers_201 _ _ _ _ H Hst)
    as (new_swimmer & n & age & g & Hj & Hn & Hage & Hg & Hcreated).
  simpl in Hcreated. destruct Hcreated as [-> ->].
  eexists. exists n. split; [done|].
  assert (Hid : (<["ageGroup" := VStr g]> (<["id" := VInt n]> new_swimmer) : dict) !! "id"
                = Some (VInt n)).
  { rewrite lookup_insert_ne by done. by rewrite lookup_insert_eq. }
  split; [done|]. unfold handle_swimmer. rewrite Hm. simpl.
  rewrite (find_swimmer_snoc _ _ _ (VInt n)); [done| |done|apply py_eq_refl].
  by apply next_id_fresh.
Qed.

Lemma create_then_get_witness :
  let req := post_request (new_swimmer_fields "Test Swimmer" 25 "M" "Test Team") in
  let st' := (handle_swimmers req sample_store).1 in
  ∃ created,
    created !! "name" = Some (VStr "Test Swimmer")
    ∧ handle_swimmer 3 (get_request ∅) st' = (st', Ok (respond (JDict created) 200)).
Proof.
  intros req st'.
  destruct (create_then_get req (get_request ∅) sample_store st'
              (respond (JDict (<["ageGroup" := VStr "25-29"]> (<["id" := VInt 3]>
                 (new_swimmer_fields "Test Swimmer" 25 "M" "Test Team")))) 201))
    as (created & n & Hpay & Hid & Hget).
  - apply sample_store_unique_ids.
  - vm_compute. reflexivity.
  - reflexivity.
  - reflexivity.
  - injection Hpay as <-.
    assert (n = 3) as -> by (rewrite lookup_insert_ne in Hid by done;
                             rewrite lookup_insert_eq in Hid; by injection Hid).
    eexists. split; [|exact Hget]. reflexivity.
Defined.

Lemma list_remove_length (x : dict) (l : list dict) :
  x ∈ l → length l = S (length (list_remove x l)).
Proof.
  induction l as [|y l IH]; intros Hx; [by apply elem_of_nil in Hx|]. simpl.
  destruct (dict_eq y x) eqn:Heq; [done|]. simpl. f_equal. apply IH.
  apply elem_of_cons in Hx as [->|Hx]; [by rewrite dict_eq_refl in Heq|done].
Qed.

(** X11. In a registry with unique ids, a [DELETE] answered with status 200
    removes exactly one record, keeps the others in their order, and makes
    every later [GET], [PUT] or [DELETE] on the same id answer 404. *)
Theorem delete_then_gone (swimmer_id : Z) (req req' : request) (st st' : store)
    (resp : response) :
  unique_ids (swimmers st) →
  meth req = DELETE →
  handle_swimmer swimmer_id req st = (st', Ok resp) →
  status resp = 200 →
  meth req' ≠ POST →
  length (swimmers st) = S (length (swimmers st'))
  ∧ swimmers st' `sublist_of` swimmers st
  ∧ handle_swimmer swimmer_id req' st' = (st', Ok (error "Swimmer not found" 404)).
Proof.
  intros Huniq Hm Hcall Hstatus Hm'. unfold handle_swimmer in Hcall. rewrite Hm in Hcall.
  destruct (find_swimmer (swimmers st) (VInt swimmer_id)) as [[[i s]|]|err] eqn:Hfind;
    [|injection Hcall as <- <-; discriminate Hstatus|discriminate Hcall].
  injection Hcall as <- _. simpl.
  assert (Hs : s ∈ swimmers st).
  { apply find_swimmer_Some in Hfind as [Hi _]. by eapply list_elem_of_lookup_2. }
  split; [by apply list_remove_length|]. split; [apply list_remove_sublist|].
  apply swimmer_not_found; [done|]. simpl. intros s' Hs'.
  pose proof (unique_ids_sublist _ _ (list_remove_sublist s (swimmers st)) Huniq)
    as [Hall _].
  rewrite Forall_forall in Hall. destruct (Hall s' Hs') as (k & Hk & _).
  exists (VInt k). split; [done|]. by eapply deleted_id_gone.
Qed.

Lemma delete_then_gone_witness :
  let st' := (handle_swimmer 1 delete_request sample_store).1 in
  length (swimmers sample_store) = S (length (swimmers st'))
  ∧ handle_swimmer 1 (get_request ∅) st' = (st', Ok (error "Swimmer not found" 404)).
Proof.
  intros st'.
  destruct (delete_then_gone 1 delete_request (get_request ∅) sample_store st'
              (respond (JDict {[ "message" := VStr "Swimmer deleted" ]}) 200))
    as (Hlen & _ & Hget).
  - apply sample_store_unique_ids.
  - reflexivity.
  - vm_compute. reflexivity.
  - reflexivity.
  - intros H. discriminate H.
  - split; [exact Hlen|exact Hget].
Defined.

Lemma find_swimmer_insert (l : list dict) (k : value) (i : nat) (s fields : dict) :
  find_swimmer l k = Ok (Some (i, s)) → fields !! "id" = None →
  find_swimmer (<[i := fields ∪ s]> l) k = Ok (Some (i, fields ∪ s)).
Proof.
  intros Hfind Hf. revert i Hfind. induction l as [|y l IH]; intros i Hfind; [done|].
  rewrite find_swimmer_cons in Hfind. inv_ok. rename a into v.
  destruct (py_eq v k) eqn:Hv.
  - injection Hfind as <- <-. simpl. rewrite find_swimmer_cons.
    unfold getitem. rewrite lookup_union, Hf. apply getitem_Ok in Ha. rewrite Ha. simpl.
    by rewrite Hv.
  - inv_ok. destruct a as [[j s']|]; [|done]. injection Hfind as <- <-. simpl.
    rewrite find_swimmer_cons, Ha. simpl. rewrite Hv. by rewrite (IH j).
Qed.

(** X12. After a [PUT] answered with status 200 whose fields do not include
    [id], a [GET] on the same id answers the merged record that the [PUT]
    answered. *)
Theorem update_then_get (swimmer_id : Z) (req req' : request) (st st' : store)
    (resp : response) :
  meth req = PUT →
  default ∅ (json req) !! "id" = None →
  handle_swimmer swimmer_id req st = (st', Ok resp) →
  status resp = 200 →
  meth req' = GET →
  handle_swimmer swimmer_id req' st' = (st', Ok resp).
Proof.
  intros Hm Hid Hcall Hstatus Hm'. unfold handle_swimmer in Hcall. rewrite Hm in Hcall.
  destruct (find_swimmer (swimmers st) (VInt swimmer_id)) as [[[i s]|]|err] eqn:Hfind;
    [|injection Hcall as <- <-; discriminate Hstatus|discriminate Hcall].
  injection Hcall as <- <-. unfold handle_swimmer. rewrite Hm'. simpl.
  by rewrite (find_swimmer_insert _ _ _ _ _ Hfind Hid).
Qed.

Lemma update_then_get_witness :
  let st' := (handle_swimmer 2 (put_request {[ "team" := VStr "NYC Aquatics" ]}) sample_store).1 in
  ∃ updated,
    updated !! "team" = Some (VStr "NYC Aquatics")
    ∧ handle_swimmer 2 (get_request ∅) st' = (st', Ok (respond (JDict updated) 200)).
Proof.
  intros st'.
  eexists. split; [|
    apply (update_then_get 2 (put_request {[ "team" := VStr "NYC Aquatics" ]})
             (get_request ∅) sample_store st')].
  2: reflexivity. 2: reflexivity. 2: { vm_compute. reflexivity. }
  2: reflexivity. 2: reflexivity.
  vm_compute. reflexivity.
Defined.

(** ** Listings *)

Lemma filterR_total {A} (p : A → result bool) (q : A → bool) (l : list A) :
  (∀ x, x ∈ l → p x = Ok (q x)) → filterR p l = Ok (filter q l).
Proof.
  induction l as [|x l IH]; intros H; [done|]. simpl.
  rewrite (H x) by by left. simpl. rewrite IH by (intros y Hy; apply H; by right).
  simpl. rewrite filter_cons. by destruct (q x).
Qed.

(** X13. When every swimmer has a string [team], [GET /api/swimmers?team=t]
    answers, with status 200, the swimmers whose team is [t] up to letter
    case, in registry order (the empty list when there is none), and
    returns the store as it was. *)
Theorem swimmers_by_team (req : request) (st : store) (team : string) :
  meth req = GET →
  args req !! "team" = Some team →
  team ≠ "" →
  (∀ s, s ∈ swimmers st → ∃ t, s !! "team" = Some (VStr t)) →
  handle_swimmers req st
  = (st, Ok (respond (JList (filter (team_is team) (swimmers st))) 200)).
Proof.
  intros Hm Hteam Hne Hall. unfold handle_swimmers. rewrite Hm, Hteam. simpl.
  assert (String.eqb team "" = false) as -> by by apply String.eqb_neq.
  simpl. rewrite (filterR_total _ (team_is team)); [done|].
  intros s Hs. destruct (Hall s Hs) as (t & Ht).
  unfold team_matches, team_is, getitem. by rewrite Ht.
Qed.

Lemma swimmers_by_team_witness :
  handle_swimmers (get_request {[ "team" := "QUEENS aquatics" ]}) sample_store
  = (sample_store,
     Ok (respond (JList (filter (team_is "QUEENS aquatics") (swimmers sample_store))) 200))
  ∧ length (filter (team_is "QUEENS aquatics") (swimmers sample_store)) = 1%nat.
Proof.
  split; [|vm_compute; reflexivity].
  apply (swimmers_by_team (get_request {[ "team" := "QUEENS aquatics" ]}) sample_store
           "QUEENS aquatics").
  - reflexivity.
  - reflexivity.
  - intros H. discriminate H.
  - apply (proj1 (Forall_forall (λ s : dict, ∃ t, s !! "team" = Some (VStr t)) _)).
    repeat constructor; eexists; vm_compute; reflexivity.
Defined.

Lemma filter_field_total (field : string) (v : value) (l : list dict) :
  (∀ r, r ∈ l → is_Some (r !! field)) →
  filter_field field (Ok v) l = Ok (filter (field_is field v) l).
Proof.
  intros H. unfold filter_field. apply filterR_total.
  intros r Hr. destruct (H r Hr) as [w Hw].
  unfold field_is, getitem. by rewrite Hw.
Qed.

Lemma filter_passes_None (field : string) (l : list dict) :
  filter (passes field None) l = l.
Proof.
  induction l as [|x l IH]; [done|]. by rewrite filter_cons_True, IH.
Qed.

Lemma given_Some (o : option string) (s : string) :
  given o = Some s → truthy o = true ∧ o = Some s.
Proof. unfold given. by destruct (truthy o) eqn:Ht; intros ?; simplify_eq. Qed.

Lemma given_None (o : option string) : given o = None → truthy o = false.
Proof. unfold given. destruct (truthy o) eqn:Ht; [|done]. by destruct o. Qed.

(** X14. When every race has the fields [event], [meet_id] and
    [swimmer_id], and the [meet_id] and [swimmer_id] parameters that are
    given are integers, [GET /api/races] answers, with status 200, the races
    that pass every given filter, in ledger order; parameters that are
    absent or empty do not filter. The store is returned as it was. *)
Theorem races_listing (today : string) (req : request) (st : store)
    (meet_id swimmer_id : option Z) :
  meth req = GET →
  (∀ r f, r ∈ races st → f ∈ ["event"; "meet_id"; "swimmer_id"] → is_Some (r !! f)) →
  match given (args req !! "meet_id") with
  | Some m => VInt <$> py_int m = Ok (VInt (default 0 meet_id)) ∧ is_Some meet_id
  | None => meet_id = None
  end →
  match given (args req !! "swimmer_id") with
  | Some s => VInt <$> py_int s = Ok (VInt (default 0 swimmer_id)) ∧ is_Some swimmer_id
  | None => swimmer_id = None
  end →
  handle_races today req st
  = (st, Ok (respond (JList (filter (race_matches (given (args req !! "event"))
                                       meet_id swimmer_id)
                               (races st))) 200)).
Proof.
  intros Hm Hfields Hmeet Hswim. unfold handle_races. rewrite Hm. f_equal. simpl.
  set (l0 := races st).
  assert (Hsub : ∀ (q : dict → bool) r f, r ∈ filter q l0 →
            f ∈ ["event"; "meet_id"; "swimmer_id"] → is_Some (r !! f)).
  { intros q r f [_ Hr]%list_elem_of_filter. by apply Hfields. }
  (* the event filter *)
  assert (∃ l1,
    (if truthy (args req !! "event")
     then filter_field "event" (Ok (VStr (default "" (args req !! "event")))) l0
     else Ok l0) = Ok l1
    ∧ l1 = filter (passes "event" (VStr <$> given (args req !! "event"))) l0)
    as (l1 & -> & Hl1).
  { unfold given. destruct (truthy (args req !! "event")) eqn:Hev.
    - destruct (args req !! "event") as [e|]; [|done]. simpl. eexists. split; [|done].
      apply filter_field_total. intros r Hr. apply Hfields; [done|set_solver].
    - exists l0. split; [done|]. by rewrite filter_passes_None. }
  simpl.
  (* the meet filter *)
  assert (∃ l2,
    (if truthy (args req !! "meet_id")
     then filter_field "meet_id" (VInt <$> py_int (default "" (args req !! "meet_id"))) l1
     else Ok l1) = Ok l2
    ∧ l2 = filter (passes "meet_id" (VInt <$> meet_id)) l1) as (l2 & -> & Hl2).
  { destruct (given (args req !! "meet_id")) as [m|] eqn:Hg.
    - apply given_Some in Hg as [-> ->]. simpl. destruct Hmeet as [-> [mi ->]]. simpl.
      eexists. split; [|done]. apply filter_field_total. intros r Hr.
      rewrite Hl1 in Hr. eapply Hsub; [done|set_solver].
    - apply given_None in Hg as ->. subst meet_id. exists l1. split; [done|].
      by rewrite filter_passes_None. }
  simpl.
  (* the swimmer filter *)
  assert (∃ l3,
    (if truthy (args req !! "swimmer_id")
     then filter_field "swimmer_id"
            (VInt <$> py_int (default "" (args req !! "swimmer_id"))) l2
     else Ok l2) = Ok l3
    ∧ l3 = filter (passes "swimmer_id" (VInt <$> swimmer_id)) l2) as (l3 & -> & Hl3).
  { destruct (given (args req !! "swimmer_id")) as [s|] eqn:Hg.
    - apply given_Some in Hg as [-> ->]. simpl. destruct Hswim as [-> [si ->]]. simpl.
      eexists. split; [|done]. apply filter_field_total. intros r Hr.
      rewrite Hl2, Hl1 in Hr. apply list_elem_of_filter in Hr as [_ Hr].
      eapply Hsub; [done|set_solver].
    - apply given_None in Hg as ->. subst swimmer_id. exists l2. split; [done|].
      by rewrite filter_passes_None. }
  simpl. do 3 f_equal. rewrite Hl3, Hl2, Hl1, !list_filter_filter.
  apply list_filter_iff. intros r. unfold race_matches.
  rewrite !andb_True. tauto.
Qed.

Lemma races_listing_witness :
  handle_races "2024-02-01"
    (get_request (<["event" := "50free"]> {[ "swimmer_id" := "1" ]})) sample_store
  = (sample_store,
     Ok (respond (JList (filter (race_matches (Some "50free") None (Some 1))
                           (races sample_store))) 200))
  ∧ length (filter (race_matches (Some "50free") None (Some 1)) (races sample_store))
    = 4%nat.
Proof.
  split; [|vm_compute; reflexivity].
  replace (Some "50free")
    with (given (args (get_request (<["event" := "50free"]> {[ "swimmer_id" := "1" ]}))
                 !! "event")) by (vm_compute; reflexivity).
  apply (races_listing "2024-02-01"
           (get_request (<["event" := "50free"]> {[ "swimmer_id" := "1" ]}))
           sample_store None (Some 1)).
  - reflexivity.
  - intros r f Hr Hf. revert r Hr.
    apply (proj1 (Forall_forall (λ r : dict, is_Some (r !! f)) _)).
    let l := eval vm_compute in (races sample_store) in
    change (races sample_store) with l.
    repeat (apply elem_of_cons in Hf as [->|Hf]);
      [..|by apply elem_of_nil in Hf];
      repeat constructor; eexists; vm_compute; reflexivity.
  - reflexivity.
  - split; [vm_compute; reflexivity|by eexists].
Defined.

(** ** Calls that fail *)

Lemma handle_swimmers_store (req : request) (st st' : store) (r : result response) :
  handle_swimmers req st = (st', r) →
  st' = st ∨ ∃ created, r = Ok (respond (JDict created) 201)
                        ∧ st' = {| swimmers := swimmers st ++ [created];
                                   races := races st |}.
Proof.
  intros [[-> _]|(n & created & _ & _ & -> & ->)]%handle_swimmers_inv; [by left|].
  right. by exists created.
Qed.

Lemma handle_races_store (today : string) (req : request) (st st' : store)
    (r : result response) :
  handle_races today req st = (st', r) →
  st' = st ∨ ∃ stored, r = Ok (respond (JDict stored) 201)
                       ∧ st' = {| swimmers := swimmers st;
                                  races := races st ++ [stored] |}.
Proof.
  intros [[-> _]|(new_race & n & pb & _ & _ & _ & Hst)]%handle_races_inv; [by left|].
  simpl in Hst. destruct Hst as [-> ->]. right. by eexists.
Qed.

Lemma handle_swimmer_store (swimmer_id : Z) (req : request) (st st' : store)
    (r : result response) :
  handle_swimmer swimmer_id req st = (st', r) →
  (st' = st
   ∧ (meth req = GET ∨ meth req = POST
      ∨ r = Ok (error "Swimmer not found" 404) ∨ ∃ e, r = Raise e))
  ∨ ∃ i swimmer, swimmers st !! i = Some swimmer
      ∧ ((meth req = PUT
          ∧ r = Ok (respond (JDict (default ∅ (json req) ∪ swimmer)) 200)
          ∧ st' = {| swimmers := <[i := default ∅ (json req) ∪ swimmer]> (swimmers st);
                     races := races st |})
         ∨ (meth req = DELETE
            ∧ r = Ok (respond (JDict {[ "message" := VStr "Swimmer deleted" ]}) 200)
            ∧ st' = {| swimmers := list_remove swimmer (swimmers st);
                       races := races st |})).
Proof.
  unfold handle_swimmer. intros H.
  destruct (meth req) eqn:Hm.
  - left. destruct (find_swimmer _ _) as [[[i swimmer]|]|e]; simplify_eq;
      (split; [done|by left]).
  - left. simplify_eq. split; [done|]. right. by left.
  - destruct (find_swimmer _ _) as [[[i swimmer]|]|e] eqn:Hfind.
    + apply find_swimmer_Some in Hfind as [Hi _].
      right. exists i, swimmer. split; [done|]. left. by simplify_eq.
    + left. simplify_eq. split; [done|]. right. right. by left.
    + left. simplify_eq. split; [done|]. do 3 right. by eexists.
  - destruct (find_swimmer _ _) as [[[i swimmer]|]|e] eqn:Hfind.
    + apply find_swimmer_Some in Hfind as [Hi _].
      right. exists i, swimmer. split; [done|]. right. by simplify_eq.
    + left. simplify_eq. split; [done|]. right. right. by left.
    + left. simplify_eq. split; [done|]. do 3 right. by eexists.
Qed.

(** X15. A call whose body, if it has one, is a JSON object, and that
    raises or is answered with a status of 400 or more, returns the store as
    it was: nothing is written before a validation fails, a lookup misses or
    a time fails to parse. *)
Theorem failed_call_keeps_store (c : api_call) (st st' : store) (r : result response) :
  api_step c st = (st', r) →
  match r with
  | Ok resp => 400 ≤ status resp
  | Raise _ => True
  end →
  st' = st.
Proof.
  intros H Hr. destruct c as [req|swimmer_id req|today req|req|swimmer_id]; simpl in H.
  - apply handle_swimmers_store in H as [->|(created & -> & ->)]; [done|].
    simpl in Hr. lia.
  - apply handle_swimmer_store in H
      as [[-> _]|(i & s & _ & [(_ & -> & ->)|(_ & -> & ->)])]; [done|..];
      simpl in Hr; lia.
  - apply handle_races_store in H as [->|(stored & -> & ->)]; [done|].
    simpl in Hr. lia.
  - unfold get_rankings in H. destruct (negb _); by simplify_eq.
  - unfold get_personal_bests in H. by simplify_eq.
Qed.

Lemma failed_call_keeps_store_witness :
  (api_step (CallRaces "2024-02-01" (post_request (new_race_fields 1 "50free" "abc" 3)))
     sample_store).1 = sample_store.
Proof.
  apply (failed_call_keeps_store
           (CallRaces "2024-02-01" (post_request (new_race_fields 1 "50free" "abc" 3)))
           sample_store _ (Raise ValueError)).
  - vm_compute. reflexivity.
  - exact I.
Defined.

(** ** Health *)

Lemma health_field_swimmers (events : list dict) (st : store) :
  health_field "swimmers_count" events st = Some (VInt (Z.of_nat (length (swimmers st)))).
Proof. unfold health_field. simpl. by simplify_map_eq. Qed.

Lemma health_field_races (events : list dict) (st : store) :
  health_field "races_count" events st = Some (VInt (Z.of_nat (length (races st)))).
Proof. unfold health_field. simpl. by simplify_map_eq. Qed.

(** X16. The counts of [/api/health] follow the answers of the calls: after
    a call that was answered, [swimmers_count] is one more when a
    registration was answered 201, one less when a [DELETE] was answered
    200, and the same otherwise; [races_count] is one more when a submission
    was answered 201 and the same otherwise. *)
Theorem health_counts (events : list dict) (c : api_call) (st st' : store)
    (resp : response) :
  api_step c st = (st', Ok resp) →
  health_field "swimmers_count" events st'
  = Some (VInt (Z.of_nat (length (swimmers st)) + swimmers_delta c resp))
  ∧ health_field "races_count" events st'
    = Some (VInt (Z.of_nat (length (races st)) + races_delta c resp)).
Proof.
  intros H. rewrite health_field_swimmers, health_field_races.
  assert (Hgoal : Z.of_nat (length (swimmers st'))
                  = Z.of_nat (length (swimmers st)) + swimmers_delta c resp
                  ∧ Z.of_nat (length (races st'))
                    = Z.of_nat (length (races st)) + races_delta c resp);
    [|destruct Hgoal as [-> ->]; done].
  destruct c as [req|swimmer_id req|today req|req|swimmer_id]; simpl in *.
  - destruct (status resp =? 201) eqn:Hst.
    + apply Z.eqb_eq in Hst.
      destruct (handle_swimmers_201 _ _ _ _ H Hst) as (? & ? & ? & ? & _ & _ & _ & _ & Hx).
      simpl in Hx. destruct Hx as [-> _]. simpl. rewrite length_app. simpl. lia.
    + apply Z.eqb_neq in Hst.
      apply handle_swimmers_store in H as [->|(created & [= ->] & ->)]; [lia|done].
  - apply handle_swimmer_store in H
      as [[-> Hr]|(i & s & Hi & [(Hm & [= ->] & ->)|(Hm & [= ->] & ->)])]; simpl.
    + destruct (meth req) eqn:Hm; try lia.
      destruct Hr as [?|[?|[[= ->]|[e [=]]]]]; try done. simpl. lia.
    + rewrite Hm, length_insert. lia.
    + rewrite Hm. simpl.
      rewrite (list_remove_length s (swimmers st)) by by eapply list_elem_of_lookup_2.
      lia.
  - destruct (status resp =? 201) eqn:Hst.
    + apply Z.eqb_eq in Hst.
      destruct (handle_races_201 _ _ _ _ _ H Hst) as (? & ? & ? & _ & _ & Hx).
      simpl in Hx. destruct Hx as [-> _]. simpl. rewrite length_app. simpl. lia.
    + apply Z.eqb_neq in Hst.
      apply handle_races_store in H as [->|(stored & [= ->] & ->)]; [lia|done].
  - unfold get_rankings in H. destruct (negb _); simplify_eq; lia.
  - unfold get_personal_bests in H. simplify_eq. lia.
Qed.

Lemma health_counts_witness :
  let st' := (handle_swimmer 2 delete_request sample_store).1 in
  health_field "swimmers_count" [] sample_store = Some (VInt 2)
  ∧ health_field "swimmers_count" [] st' = Some (VInt 1)
  ∧ health_field "races_count" [] st' = Some (VInt 5).
Proof.
  intros st'.
  destruct (health_counts [] (CallSwimmer 2 delete_request) sample_store st'
              (respond (JDict {[ "message" := VStr "Swimmer deleted" ]}) 200))
    as [Hs Hr].
  - vm_compute. reflexivity.
  - split; [reflexivity|]. split; [exact Hs|exact Hr].
Defined.
